(** * Naive Bayes sentiment classifier (NB.py): model and properties

    A shallow embedding of [load_preprocessed_data], [train_naive_bayes],
    [test_naive_bayes] and of the evaluation driver of NB.py.

    Conventions of the embedding.
    - A Python [dict] whose iteration order is irrelevant to the result is a
      [gmap]; a [set] of words is a [gset string].  The [scores] dictionary
      of the classifier, whose insertion order decides ties, is an ordered
      association list.
    - The class set is given by the list of its members in the order in
      which Python iterates over it; that order is arbitrary but fixed, so
      the theorems quantify over it.
    - Python integers are [Z].  A float obtained by dividing two integers
      is the exact rational ([Q]); a float obtained from [math.log] is the
      exact real ([R]).  Rounding of IEEE doubles is not modelled.
    - Exceptions are values of [exn]; a computation that may raise has type
      [res A].
    - Text is ASCII: [str.split], [str.strip] and [int] are modelled on
      the ASCII range of their Unicode behaviour. *)

From Stdlib Require Import Reals QArith Qabs Qreals Lra Lia Ascii String.
From Stdlib Require Import SpecFloat.
From stdpp Require Import gmap strings list fin_maps pretty.

Set Warnings "-clear-no-such-hyp".

Open Scope string_scope.
Open Scope list_scope.
Open Scope Z_scope.

(** ** Exceptions *)

Inductive exn : Type :=
  | KeyError (key : string)
  | ValueError
  | ZeroDivisionError
  | OverflowError.

Inductive res (A : Type) : Type :=
  | Ok (a : A)
  | Raise (e : exn).
Arguments Ok {A} a.
Arguments Raise {A} e.

#[global] Instance res_ret : MRet res := λ A a, Ok a.
#[global] Instance res_bind : MBind res := λ A B f x,
  match x with
  | Ok a => f a
  | Raise e => Raise e
  end.

(** A Python [for x in l: ...] loop over a state [s], stopping at the
    first exception. *)
Fixpoint for_each {A S : Type} (body : S → A → res S) (l : list A) (s : S)
    : res S :=
  match l with
  | [] => Ok s
  | x :: l' => s' ← body s x; for_each body l' s'
  end.

(** ** Python primitives *)

Module Py.

(** [d[k]] on a dictionary: [KeyError] when the key is missing. *)
Definition getitem {V : Type} (d : gmap string V) (k : string) : res V :=
  match d !! k with
  | Some v => Ok v
  | None => Raise (KeyError k)
  end.

(** [d.get(k, dflt)]. *)
Definition get {K V : Type} `{Countable K} (d : gmap K V) (k : K) (dflt : V)
    : V :=
  default dflt (d !! k).

(** [d.items()] and [d.values()]. *)
Definition items {V : Type} (d : gmap string V) : list (string * V) :=
  map_to_list d.
Definition values {V : Type} (d : gmap string V) : list V :=
  (map_to_list d).*2.

(** [sum(l)] on integers: a left fold starting from 0. *)
Definition sum (l : list Z) : Z := foldl Z.add 0 l.

(** [a / b] on integers (true division). *)
Definition true_div (a b : Z) : res Q :=
  if decide (b = 0) then Raise ZeroDivisionError
  else Ok (inject_Z a / inject_Z b)%Q.

(** [math.log(x)]: [ValueError] unless [x] is positive. *)
Definition log (x : Q) : res R :=
  if Qlt_le_dec 0 x then Ok (ln (Q2R x)) else Raise ValueError.

(** [c.isspace()] on the ASCII range: tab, line feed, vertical tab, form
    feed, carriage return, the four separators 0x1c-0x1f, and space. *)
Definition isspace (c : ascii) : bool :=
  let n := N_of_ascii c in
  ((9 <=? n) && (n <=? 13) || (28 <=? n) && (n <=? 32))%N.

Fixpoint lstrip (s : string) : string :=
  match s with
  | EmptyString => EmptyString
  | String c s' => if isspace c then lstrip s' else s
  end.

Fixpoint rstrip (s : string) : string :=
  match s with
  | EmptyString => EmptyString
  | String c s' =>
      match rstrip s' with
      | EmptyString => if isspace c then EmptyString else String c EmptyString
      | r => String c r
      end
  end.

(** [s.strip()]. *)
Definition strip (s : string) : string := rstrip (lstrip s).

(** [s.split()]: the maximal runs of non-whitespace characters. *)
Fixpoint split (s : string) : list string :=
  match s with
  | EmptyString => []
  | String c s' =>
      if isspace c then split s'
      else
        match s' with
        | EmptyString => [String c EmptyString]
        | String c' _ =>
            if isspace c' then String c EmptyString :: split s'
            else
              match split s' with
              | w :: ws => String c w :: ws
              | [] => [String c EmptyString]
              end
        end
  end.

(** [s.split(sep)] for a one-character separator. *)
Fixpoint split_on (sep : ascii) (s : string) : list string :=
  match s with
  | EmptyString => [EmptyString]
  | String c s' =>
      if decide (c = sep) then EmptyString :: split_on sep s'
      else
        match split_on sep s' with
        | w :: ws => String c w :: ws
        | [] => [String c EmptyString]
        end
  end.

Definition digit (c : ascii) : option Z :=
  let n := N_of_ascii c in
  if ((48 <=? n) && (n <=? 57))%N then Some (Z.of_N n - 48) else None.

(** The digits of a decimal literal; single underscores are allowed
    between digits.  [prev] tells whether the previous character was a
    digit. *)
Fixpoint digits (acc : Z) (prev : bool) (s : string) : option Z :=
  match s with
  | EmptyString => if prev then Some acc else None
  | String c s' =>
      match digit c with
      | Some d => digits (10 * acc + d) true s'
      | None =>
          if decide (c = "_"%char) then
            if prev then digits acc false s' else None
          else None
      end
  end.

(** [int(s)] on a string, base 10: surrounding whitespace is ignored,
    then an optional sign, then the digits. *)
Definition int (s : string) : res Z :=
  let parsed :=
    match strip s with
    | String c s' =>
        if decide (c = "+"%char) then digits 0 false s'
        else if decide (c = "-"%char) then Z.opp <$> digits 0 false s'
        else digits 0 false (String c s')
    | EmptyString => None
    end in
  match parsed with
  | Some n => Ok n
  | None => Raise ValueError
  end.

End Py.

(** ** Ordered dictionaries

    [scores] in [test_naive_bayes] is iterated by [max], so its insertion
    order is kept. *)

Module ODict.

Definition t (V : Type) : Type := list (string * V).

(** [d[k] = v]: overwrite in place, or append a new key. *)
Fixpoint set {V : Type} (k : string) (v : V) (d : t V) : t V :=
  match d with
  | [] => [(k, v)]
  | (k', v') :: d' =>
      if decide (k' = k) then (k, v) :: d' else (k', v') :: set k v d'
  end.

(** [d[k]]. *)
Fixpoint getitem {V : Type} (d : t V) (k : string) : res V :=
  match d with
  | [] => Raise (KeyError k)
  | (k', v') :: d' => if decide (k' = k) then Ok v' else getitem d' k
  end.

End ODict.

(** ** Document loader *)

(** A document: its word counts and its label. *)
Abbreviation document := (gmap string Z * string)%type.

(** The body of the loop over the [word:count] segments of one line. *)
Definition load_segment (st : gmap string Z * gset string)
    (word_count : string) : res (gmap string Z * gset string) :=
  let '(word_counts, vocabulary) := st in
  match Py.split_on ":" word_count with
  | [word; count] =>
      n ← Py.int count;
      Ok (<[word := n]> word_counts, {[word]} ∪ vocabulary)
  | _ => Raise ValueError
  end.

(** The body of the loop over the lines of the file. *)
Definition load_line (st : list document * gset string) (line : string)
    : res (list document * gset string) :=
  let '(documents, vocabulary) := st in
  match Py.split (Py.strip line) with
  | [] => Ok (documents, vocabulary)
  | label :: rest =>
      '(word_counts, vocabulary') ← for_each load_segment rest (∅, vocabulary);
      Ok (documents ++ [(word_counts, label)], vocabulary')
  end.

(** [load_preprocessed_data], on the lines of the file. *)
Definition load_preprocessed_data (lines : list string)
    : res (list document * gset string) :=
  for_each load_line lines ([], ∅).

(** ** Trainer *)

(** [{c: v for c in classes}]. *)
Definition dict_of_classes {V : Type} (v : V) (classes : list string)
    : gmap string V :=
  foldl (λ d c, <[c := v]> d) ∅ classes.

(** Lines 44-46: the number of documents of each class. *)
Definition count_classes (documents : list document) (classes : list string)
    : res (gmap string Z) :=
  for_each
    (λ class_counts '(_, label),
       n ← Py.getitem class_counts label;
       Ok (<[label := n + 1]> class_counts))
    documents (dict_of_classes 0 classes).

(** Lines 49-51: the vocabulary of the documents. *)
Definition vocabulary_of (documents : list document) : gset string :=
  foldl (λ V '(word_counts, _), V ∪ dom word_counts) ∅ documents.

(** Line 55: [logprior[c] = log(class_counts[c] / N_doc)]. *)
Definition prior_step (class_counts : gmap string Z) (N_doc : Z)
    (logprior : gmap string R) (c : string) : res (gmap string R) :=
  n ← Py.getitem class_counts c;
  q ← Py.true_div n N_doc;
  x ← Py.log q;
  Ok (<[c := x]> logprior).

(** Lines 54-55: the log priors. *)
Definition class_priors (class_counts : gmap string Z) (N_doc : Z)
    (classes : list string) : res (gmap string R) :=
  for_each (prior_step class_counts N_doc) classes ∅.

(** Line 61: [bigdoc[label][word] = bigdoc[label].get(word, 0) + count]. *)
Definition bigdoc_add (label : string) (bigdoc : gmap string (gmap string Z))
    (item : string * Z) : res (gmap string (gmap string Z)) :=
  let '(word, count) := item in
  words ← Py.getitem bigdoc label;
  Ok (<[label := <[word := Py.get words word 0 + count]> words]> bigdoc).

(** Lines 58-61: the word counts of each class. *)
Definition build_bigdoc (documents : list document) (classes : list string)
    : res (gmap string (gmap string Z)) :=
  for_each
    (λ bigdoc '(word_counts, label),
       for_each (bigdoc_add label) (Py.items word_counts) bigdoc)
    documents (dict_of_classes ∅ classes).

(** Line 66: the denominator of the smoothed estimate. *)
Definition total_words (words : gmap string Z) (V : gset string) : Z :=
  Py.sum (Py.values words) + Z.of_nat (size V).

(** Lines 70-71: the smoothed log likelihood of one word for class [c]. *)
Definition likelihood_step (words : gmap string Z) (V : gset string)
    (c : string) (loglikelihood : gmap (string * string) R) (word : string)
    : res (gmap (string * string) R) :=
  let count := Py.get words word 0 + 1 in
  q ← Py.true_div count (total_words words V);
  x ← Py.log q;
  Ok (<[(word, c) := x]> loglikelihood).

(** Lines 64-71: the smoothed log likelihoods. *)
Definition word_likelihoods (bigdoc : gmap string (gmap string Z))
    (V : gset string) (classes : list string)
    : res (gmap (string * string) R) :=
  for_each
    (λ loglikelihood c,
       words ← Py.getitem bigdoc c;
       for_each (likelihood_step words V c) (elements V) loglikelihood)
    classes ∅.

Definition model : Type :=
  gset string * gmap string R * gmap (string * string) R.

Definition train_naive_bayes (documents : list document)
    (classes : list string) : res model :=
  let N_doc := Z.of_nat (length documents) in
  class_counts ← count_classes documents classes;
  let V := vocabulary_of documents in
  logprior ← class_priors class_counts N_doc classes;
  bigdoc ← build_bigdoc documents classes;
  loglikelihood ← word_likelihoods bigdoc V classes;
  Ok (V, logprior, loglikelihood).

(** ** Classifier *)

(** Line 81: [{c: logprior[c] for c in classes}]. *)
Definition initial_scores (logprior : gmap string R) (classes : list string)
    : res (ODict.t R) :=
  for_each
    (λ scores c, p ← Py.getitem logprior c; Ok (ODict.set c p scores))
    classes [].

(** Line 89: [scores[c] += count * loglikelihood.get((word, c), 0)]. *)
Definition add_score (loglikelihood : gmap (string * string) R)
    (word : string) (count : Z) (scores : ODict.t R) (c : string)
    : res (ODict.t R) :=
  s ← ODict.getitem scores c;
  Ok (ODict.set c (s + IZR count * Py.get loglikelihood (word, c) 0%R)%R scores).

(** Lines 84-89: the contribution of the words of the document. *)
Definition accumulate_scores (word_counts : gmap string Z) (V : gset string)
    (loglikelihood : gmap (string * string) R) (classes : list string)
    (scores : ODict.t R) : res (ODict.t R) :=
  for_each
    (λ scores '(word, count),
       if decide (word ∈ V)
       then for_each (add_score loglikelihood word count) classes scores
       else Ok scores)
    (Py.items word_counts) scores.

(** [max(l, key=lambda x: x[1])]: the first item whose value no later item
    exceeds; [ValueError] on an empty sequence. *)
Definition max_by_value (l : list (string * R)) : res (string * R) :=
  match l with
  | [] => Raise ValueError
  | x :: l' =>
      Ok (foldl (λ best y, if Rlt_dec best.2 y.2 then y else best) x l')
  end.

(** Lines 81-89: the [scores] dictionary when [max] is called. *)
Definition class_scores (word_counts : gmap string Z) (V : gset string)
    (logprior : gmap string R) (loglikelihood : gmap (string * string) R)
    (classes : list string) : res (ODict.t R) :=
  scores ← initial_scores logprior classes;
  accumulate_scores word_counts V loglikelihood classes scores.

Definition test_naive_bayes (word_counts : gmap string Z) (V : gset string)
    (logprior : gmap string R) (loglikelihood : gmap (string * string) R)
    (classes : list string) : res string :=
  scores ← class_scores word_counts V logprior loglikelihood classes;
  best ← max_by_value scores;
  Ok best.1.

(** ** Evaluation driver *)

(** The line feed character. *)
Definition nl : string := String "010"%char EmptyString.

(** Rounding of a rational to the nearest integer, ties to even. *)
Definition round_half_even (x : Q) : Z :=
  let n := Qnum x in
  let d := Z.pos (Qden x) in
  let q := n `div` d in
  let r := n `mod` d in
  match (2 * r ?= d) with
  | Lt => q
  | Gt => q + 1
  | Eq => if Z.even q then q else q + 1
  end.

(** The two digits of a number of hundredths below 100. *)
Definition two_digits (n : Z) : string :=
  (if decide (n < 10) then "0" else "") +:+ pretty n.

(** [f"{x:.2f}"]: the decimal expansion of [x] rounded to two places. *)
Definition format_2f (x : Q) : string :=
  let h := round_half_even (Qabs x * 100)%Q in
  (if Qlt_le_dec x 0 then "-" else "")
  +:+ pretty (h `div` 100) +:+ "." +:+ two_digits (h `mod` 100).

(** Lines 138-145: the body of the loop over the test documents; the state
    is the text written so far and the two counters. *)
Definition write_prediction (V : gset string) (logprior : gmap string R)
    (loglikelihood : gmap (string * string) R) (classes : list string)
    (st : string * Z * Z) (doc : document) : res (string * Z * Z) :=
  let '(out, correct, total) := st in
  let '(word_counts, true_label) := doc in
  predicted_label ←
    test_naive_bayes word_counts V logprior loglikelihood classes;
  Ok (out +:+ predicted_label +:+ nl,
      if decide (predicted_label = true_label) then correct + 1 else correct,
      total + 1).

(** Lines 134-149: the contents of the predictions file. *)
Definition write_predictions (test_docs : list document) (V : gset string)
    (logprior : gmap string R) (loglikelihood : gmap (string * string) R)
    (classes : list string) : res string :=
  '(out, correct, total) ←
    for_each (write_prediction V logprior loglikelihood classes) test_docs
      ("", 0, 0);
  q ← Py.true_div correct total;
  let accuracy := (q * 100)%Q in
  Ok (out +:+ nl +:+ "Accuracy: " +:+ format_2f accuracy +:+ "%").

(** The driver, from the lines of the two corpora to the contents of the
    predictions file.  [classes] lists the set [{'pos', 'neg'}] in its
    iteration order.  Writing the model file does not influence the
    predictions and is left out. *)
Definition main (train_lines test_lines : list string)
    (classes : list string) : res string :=
  '(train_docs, vocab) ← load_preprocessed_data train_lines;
  '(V, logprior, loglikelihood) ← train_naive_bayes train_docs classes;
  '(test_docs, _) ← load_preprocessed_data test_lines;
  write_predictions test_docs V logprior loglikelihood classes.

(** ** Binary64 arithmetic

    The doubles of the program, for the properties that rounding,
    underflow or overflow can change.  The values are those of IEEE 754
    binary64 and the operations those of the standard library's
    specification of floating-point arithmetic (rounding to nearest, ties
    to even). *)

Module Float.

Definition prec : Z := 53.
Definition emax : Z := 1024.

(** [0.0]. *)
Definition zero : spec_float := S754_zero false.

(** Neither an infinity nor a NaN. *)
Definition is_finite (x : spec_float) : bool :=
  match x with
  | S754_zero _ | S754_finite _ _ _ => true
  | _ => false
  end.

(** Finite and strictly positive. *)
Definition is_positive (x : spec_float) : bool :=
  match x with
  | S754_finite false _ _ => true
  | _ => false
  end.

(** [float(a)] for an integer [a]: the nearest double; [OverflowError]
    beyond the range of the doubles. *)
Definition of_int (a : Z) : res spec_float :=
  match binary_normalize prec emax a 0 false with
  | S754_infinity _ => Raise OverflowError
  | x => Ok x
  end.

(** [a / b] on integers: the double nearest to the exact quotient, a
    zero when it underflows; [OverflowError] when it is beyond the range
    of the doubles. *)
Definition true_div (a b : Z) : res spec_float :=
  if decide (b = 0) then Raise ZeroDivisionError
  else
    let s := xorb (a <? 0) (b <? 0) in
    match a with
    | 0 => Ok (S754_zero s)
    | _ =>
        let '(q, e, l) :=
          SFdiv_core_binary prec emax (Z.abs a) 0 (Z.abs b) 0 in
        match binary_round_aux prec emax s q e l with
        | S754_infinity _ => Raise OverflowError
        | x => Ok x
        end
    end.

(** [x + y] and [x * y] on doubles. *)
Definition add (x y : spec_float) : spec_float := SFadd prec emax x y.
Definition mul (x y : spec_float) : spec_float := SFmul prec emax x y.

(** [n * x] for an integer [n] and a double [x]: the integer is
    converted first. *)
Definition mul_int (n : Z) (x : spec_float) : res spec_float :=
  y ← of_int n; Ok (mul y x).

(** [x > y]. *)
Definition gt (x y : spec_float) : bool := SFltb y x.

(** [math.log(x)] on a double, over the logarithm [libm_log] of the
    platform's math library: [ValueError] for a zero or a negative
    argument, and also when the library returns an infinity or a NaN for
    a finite argument. *)
Definition log (libm_log : spec_float → spec_float) (x : spec_float)
    : res spec_float :=
  match x with
  | S754_nan => Ok S754_nan
  | S754_infinity false => Ok x
  | S754_finite false _ _ =>
      let r := libm_log x in
      if is_finite r then Ok r else Raise ValueError
  | _ => Raise ValueError
  end.

(** The rational that a finite double denotes. *)
Definition to_Q (x : spec_float) : Q :=
  match x with
  | S754_finite s m e =>
      let n := if s then Z.neg m else Z.pos m in
      match e with
      | Z.neg p => Qmake n (2 ^ p)
      | _ => inject_Z (n * 2 ^ e)
      end
  | _ => 0%Q
  end.

(** A logarithm that is exact on the powers of two and constant on each
    binade: it stands for the platform's where an example has to run. *)
Definition coarse_log (x : spec_float) : spec_float :=
  match x with
  | S754_finite false m e =>
      mul (binary_normalize prec emax (Z.pos (digits2_pos m) + e - 1) 0 false)
        (S754_finite false 6243314768165359 (-53))
  | _ => S754_nan
  end.

End Float.

(** ** The trainer, the classifier and the driver on doubles

    The same loops as above, with the arithmetic of [Float]. *)

Module Double.

Definition model : Type :=
  gset string * gmap string spec_float * gmap (string * string) spec_float.

Section libm.
Variable libm_log : spec_float → spec_float.

(** Line 55: [logprior[c] = log(class_counts[c] / N_doc)]. *)
Definition prior_step (class_counts : gmap string Z) (N_doc : Z)
    (logprior : gmap string spec_float) (c : string)
    : res (gmap string spec_float) :=
  n ← Py.getitem class_counts c;
  q ← Float.true_div n N_doc;
  x ← Float.log libm_log q;
  Ok (<[c := x]> logprior).

(** Lines 54-55. *)
Definition class_priors (class_counts : gmap string Z) (N_doc : Z)
    (classes : list string) : res (gmap string spec_float) :=
  for_each (prior_step class_counts N_doc) classes ∅.

(** Lines 70-71. *)
Definition likelihood_step (words : gmap string Z) (V : gset string)
    (c : string) (loglikelihood : gmap (string * string) spec_float)
    (word : string) : res (gmap (string * string) spec_float) :=
  let count := Py.get words word 0 + 1 in
  q ← Float.true_div count (total_words words V);
  x ← Float.log libm_log q;
  Ok (<[(word, c) := x]> loglikelihood).

(** Lines 64-71. *)
Definition word_likelihoods (bigdoc : gmap string (gmap string Z))
    (V : gset string) (classes : list string)
    : res (gmap (string * string) spec_float) :=
  for_each
    (λ loglikelihood c,
       words ← Py.getitem bigdoc c;
       for_each (likelihood_step words V c) (elements V) loglikelihood)
    classes ∅.

Definition train_naive_bayes (documents : list document)
    (classes : list string) : res model :=
  let N_doc := Z.of_nat (length documents) in
  class_counts ← count_classes documents classes;
  let V := vocabulary_of documents in
  logprior ← class_priors class_counts N_doc classes;
  bigdoc ← build_bigdoc documents classes;
  loglikelihood ← word_likelihoods bigdoc V classes;
  Ok (V, logprior, loglikelihood).

End libm.

(** Line 81. *)
Definition initial_scores (logprior : gmap string spec_float)
    (classes : list string) : res (ODict.t spec_float) :=
  for_each
    (λ scores c, p ← Py.getitem logprior c; Ok (ODict.set c p scores))
    classes [].

(** [count * loglikelihood.get((word, c), 0)]: the product of an integer
    and a double, or the integer 0 when the pair has no entry. *)
Definition weighted (loglikelihood : gmap (string * string) spec_float)
    (word : string) (count : Z) (c : string) : res spec_float :=
  match loglikelihood !! (word, c) with
  | Some x => Float.mul_int count x
  | None => Ok Float.zero
  end.

(** Line 89. *)
Definition add_score (loglikelihood : gmap (string * string) spec_float)
    (word : string) (count : Z) (scores : ODict.t spec_float) (c : string)
    : res (ODict.t spec_float) :=
  s ← ODict.getitem scores c;
  term ← weighted loglikelihood word count c;
  Ok (ODict.set c (Float.add s term) scores).

(** Lines 84-89. *)
Definition accumulate_scores (word_counts : gmap string Z) (V : gset string)
    (loglikelihood : gmap (string * string) spec_float)
    (classes : list string) (scores : ODict.t spec_float)
    : res (ODict.t spec_float) :=
  for_each
    (λ scores '(word, count),
       if decide (word ∈ V)
       then for_each (add_score loglikelihood word count) classes scores
       else Ok scores)
    (Py.items word_counts) scores.

(** [max(l, key=lambda x: x[1])] on doubles. *)
Definition max_by_value (l : list (string * spec_float))
    : res (string * spec_float) :=
  match l with
  | [] => Raise ValueError
  | x :: l' =>
      Ok (foldl (λ best y, if Float.gt y.2 best.2 then y else best) x l')
  end.

(** Lines 81-89. *)
Definition class_scores (word_counts : gmap string Z) (V : gset string)
    (logprior : gmap string spec_float)
    (loglikelihood : gmap (string * string) spec_float)
    (classes : list string) : res (ODict.t spec_float) :=
  scores ← initial_scores logprior classes;
  accumulate_scores word_counts V loglikelihood classes scores.

Definition test_naive_bayes (word_counts : gmap string Z) (V : gset string)
    (logprior : gmap string spec_float)
    (loglikelihood : gmap (string * string) spec_float)
    (classes : list string) : res string :=
  scores ← class_scores word_counts V logprior loglikelihood classes;
  best ← max_by_value scores;
  Ok best.1.

(** [f"{x:.2f}"] on a double: the decimal expansion, rounded to two
    places, of the rational that the double denotes. *)
Definition format_2f (x : spec_float) : string :=
  match x with
  | S754_nan => "nan"
  | S754_infinity s => (if s then "-" else "") +:+ "inf"
  | S754_zero s => (if s then "-" else "") +:+ "0.00"
  | S754_finite _ _ _ => format_2f (Float.to_Q x)
  end.

(** Line 148: [(correct / total) * 100]. *)
Definition accuracy (correct total : Z) : res spec_float :=
  q ← Float.true_div correct total;
  h ← Float.of_int 100;
  Ok (Float.mul q h).

(** Lines 138-145. *)
Definition write_prediction (V : gset string)
    (logprior : gmap string spec_float)
    (loglikelihood : gmap (string * string) spec_float)
    (classes : list string) (st : string * Z * Z) (doc : document)
    : res (string * Z * Z) :=
  let '(out, correct, total) := st in
  let '(word_counts, true_label) := doc in
  predicted_label ←
    test_naive_bayes word_counts V logprior loglikelihood classes;
  Ok (out +:+ predicted_label +:+ nl,
      if decide (predicted_label = true_label) then correct + 1 else correct,
      total + 1).

(** Lines 134-149. *)
Definition write_predictions (test_docs : list document) (V : gset string)
    (logprior : gmap string spec_float)
    (loglikelihood : gmap (string * string) spec_float)
    (classes : list string) : res string :=
  '(out, correct, total) ←
    for_each (write_prediction V logprior loglikelihood classes) test_docs
      ("", 0, 0);
  a ← accuracy correct total;
  Ok (out +:+ nl +:+ "Accuracy: " +:+ format_2f a +:+ "%").

(** The driver. *)
Definition main (libm_log : spec_float → spec_float)
    (train_lines test_lines : list string) (classes : list string)
    : res string :=
  '(train_docs, vocab) ← load_preprocessed_data train_lines;
  '(V, logprior, loglikelihood) ←
    train_naive_bayes libm_log train_docs classes;
  '(test_docs, _) ← load_preprocessed_data test_lines;
  write_predictions test_docs V logprior loglikelihood classes.

End Double.

(** ** Quantities named by the specification

    These are written from the words of the specification, to be compared
    with what the code computes. *)

Definition sumZ (l : list Z) : Z := foldr Z.add 0 l.
Definition sumR (l : list R) : R := foldr Rplus 0%R l.

(** The documents of class [c]. *)
Definition of_class (c : string) (documents : list document)
    : list document :=
  filter (λ d, d.2 = c) documents.

(** count(c): the number of training documents labelled [c]. *)
Definition count_label (documents : list document) (c : string) : Z :=
  Z.of_nat (length (of_class c documents)).

(** The number of occurrences of [w] in the documents of class [c]. *)
Definition word_count_in_class (documents : list document) (c w : string)
    : Z :=
  sumZ (map (λ d, Py.get d.1 w 0) (of_class c documents)).

(** The total word count of class [c]. *)
Definition total_in_class (documents : list document) (c : string) : Z :=
  sumZ (map (λ d, sumZ (Py.values d.1)) (of_class c documents)).

(** Every word count of every document is a non-negative integer. *)
Definition nonneg_counts (documents : list document) : Prop :=
  ∀ word_counts label w n,
    (word_counts, label) ∈ documents → word_counts !! w = Some n → 0 ≤ n.

(** Every label belongs to the class set. *)
Definition labels_in (documents : list document) (classes : list string)
    : Prop :=
  ∀ d, d ∈ documents → d.2 ∈ classes.

(** Every class labels at least one document. *)
Definition classes_inhabited (documents : list document)
    (classes : list string) : Prop :=
  ∀ c, c ∈ classes → ∃ d, d ∈ documents ∧ d.2 = c.

(** The words of a class after the items [l] of one document were added
    to [words] by line 61. *)
Definition merge_counts (words : gmap string Z) (l : list (string * Z))
    : gmap string Z :=
  foldl (λ m '(w, n), <[w := Py.get m w 0 + n]> m) words l.

(** The smoothed estimate of line 71, before the logarithm. *)
Definition smoothed (words : gmap string Z) (V : gset string) (w : string)
    : Q :=
  (inject_Z (Py.get words w 0 + 1)%Z / inject_Z (total_words words V))%Q.

(** The state of the counting loop after the documents [done]. *)
Definition counted (classes : list string) (done : list document)
    (class_counts : gmap string Z) : Prop :=
  ∀ c, class_counts !! c
       = if decide (c ∈ classes) then Some (count_label done c) else None.

(** What the bucket of class [c] holds after the documents [done]. *)
Definition class_words (done : list document) (c : string)
    (words : gmap string Z) : Prop :=
  (∀ w, Py.get words w 0 = word_count_in_class done c w)
  ∧ dom words ⊆ vocabulary_of done
  ∧ sumZ (Py.values words) = total_in_class done c.

(** [bigdoc] after the documents [done]: one bucket per class. *)
Definition bigdoc_of (classes : list string) (done : list document)
    (bigdoc : gmap string (gmap string Z)) : Prop :=
  ∀ c, if decide (c ∈ classes)
       then ∃ words, bigdoc !! c = Some words ∧ class_words done c words
       else bigdoc !! c = None.

(** Every estimate of lines 70-71 has a non-zero denominator and a
    positive value. *)
Definition estimable (bigdoc : gmap string (gmap string Z))
    (V : gset string) (classes : list string) : Prop :=
  ∀ c words w, c ∈ classes → bigdoc !! c = Some words → w ∈ V →
    total_words words V ≠ 0 ∧ (0 < smoothed words V w)%Q.

(** The priors after the classes [done]. *)
Definition priors_of (count : string → Z) (N_doc : Z) (done : list string)
    (logprior : gmap string R) : Prop :=
  ∀ c, logprior !! c
       = if decide (c ∈ done) then Some (ln (IZR (count c) / IZR N_doc))
         else None.

(** The likelihoods of class [c] after the words [done], starting from
    the table [before]. *)
Definition class_likelihoods_of (words : gmap string Z) (V : gset string)
    (c : string) (before : gmap (string * string) R) (done : list string)
    (loglikelihood : gmap (string * string) R) : Prop :=
  ∀ w c', loglikelihood !! (w, c')
          = if decide (c' = c ∧ w ∈ done)
            then Some (ln (Q2R (smoothed words V w)))
            else before !! (w, c').

(** The likelihood table after the classes [done]. *)
Definition likelihoods_of (bigdoc : gmap string (gmap string Z))
    (V : gset string) (done : list string)
    (loglikelihood : gmap (string * string) R) : Prop :=
  ∀ w c, loglikelihood !! (w, c)
         = if decide (c ∈ done ∧ w ∈ V)
           then words ← bigdoc !! c; Some (ln (Q2R (smoothed words V w)))
           else None.

(** The segment format in the words of the specification: a segment
    splits at its first colon, and the text after it is the count. *)
Fixpoint partition_colon (s : string) : option (string * string) :=
  match s with
  | EmptyString => None
  | String c s' =>
      if decide (c = ":"%char) then Some (EmptyString, s')
      else (λ '(a, b), (String c a, b)) <$> partition_colon s'
  end.

Definition parse_segment_first_colon (word_count : string)
    : res (string * Z) :=
  match partition_colon word_count with
  | Some (word, count) => n ← Py.int count; Ok (word, n)
  | None => Raise ValueError
  end.

(** [c] occurs in [s]. *)
Fixpoint occurs (c : ascii) (s : string) : Prop :=
  match s with
  | EmptyString => False
  | String c' s' => c' = c ∨ occurs c s'
  end.

(** The text of the predictions: each label followed by a line feed. *)
Definition predictions_text (predictions : list string) : string :=
  foldr (λ p text, p +:+ nl +:+ text) "" predictions.

(** The number of predictions equal to the label of their document. *)
Definition count_correct (predictions : list string)
    (test_docs : list document) : Z :=
  sumZ (zip_with (λ p (d : document), if decide (p = d.2) then 1 else 0)
          predictions test_docs).


(** The pairs denoted by the segments of a line, in order. *)
Fixpoint parse_segments (rest : list string) : res (list (string * Z)) :=
  match rest with
  | [] => Ok []
  | word_count :: rest' =>
      p ← parse_segment_first_colon word_count;
      ps ← parse_segments rest';
      Ok (p :: ps)
  end.

(** The dictionary filled by the assignments [d[k] = v] of the pairs. *)
Definition assign_all (d : gmap string Z) (pairs : list (string * Z))
    : gmap string Z :=
  foldl (λ m p, <[p.1 := p.2]> m) d pairs.

(** What one line contributes: nothing, or one document. *)
Definition parse_line (line : string) : res (option document) :=
  match Py.split (Py.strip line) with
  | [] => Ok None
  | label :: rest =>
      pairs ← parse_segments rest; Ok (Some (assign_all ∅ pairs, label))
  end.

(** What one item of the document adds to the score of class [c]. *)
Definition contribution (V : gset string)
    (loglikelihood : gmap (string * string) R) (c : string)
    (item : string * Z) : R :=
  if decide (item.1 ∈ V)
  then (IZR item.2 * Py.get loglikelihood (item.1, c) 0)%R
  else 0%R.

(** The score of class [c]: its log prior plus the contributions of the
    items of the document. *)
Definition score (word_counts : gmap string Z) (V : gset string)
    (logprior : gmap string R) (loglikelihood : gmap (string * string) R)
    (c : string) : R :=
  (Py.get logprior c 0
   + sumR (map (contribution V loglikelihood c) (Py.items word_counts)))%R.

(** ** Concrete inputs *)

(** The training set ["pos great:2 movie:1"], ["neg bad:2 movie:1"]. *)
Definition scenario_lines : list string :=
  ["pos great:2 movie:1"; "neg bad:2 movie:1"].

Definition scenario_docs : list document :=
  [({["great" := 2; "movie" := 1]}, "pos");
   ({["bad" := 2; "movie" := 1]}, "neg")].

(** A training set with a label outside the class set. *)
Definition neutral_docs : list document := [({["meh" := 1]}, "neutral")].

(** A training set whose only document has no words. *)
Definition wordless_docs : list document := [(∅, "pos")].



(** The model of the scenario. *)
Definition scenario_V : gset string := {["great"; "movie"; "bad"]}.

Definition scenario_logprior : gmap string R :=
  {["pos" := ln (1 / 2); "neg" := ln (1 / 2)]}%R.

Definition scenario_loglikelihood : gmap (string * string) R :=
  {[("great", "pos") := ln (3 / 6); ("movie", "pos") := ln (2 / 6);
    ("bad", "pos") := ln (1 / 6); ("great", "neg") := ln (1 / 6);
    ("movie", "neg") := ln (2 / 6); ("bad", "neg") := ln (3 / 6)]}%R.

(** * Properties *)

(** ** Loops and exceptions *)

Lemma bind_Ok {A B : Type} (f : A → res B) (a : A) : (Ok a ≫= f) = f a.
Proof. reflexivity. Qed.

Lemma bind_Raise {A B : Type} (f : A → res B) (e : exn) :
  (Raise e ≫= f) = Raise e.
Proof. reflexivity. Qed.

Lemma bind_Ok_inv {A B : Type} (f : A → res B) (x : res A) (b : B) :
  (x ≫= f) = Ok b → ∃ a, x = Ok a ∧ f a = Ok b.
Proof. destruct x as [a|e]; [eauto | discriminate]. Qed.

(** Splits a successful sequence of binds into its successful steps. *)
Ltac bind_inv H :=
  repeat
    (let a := fresh "a" in
     let Ha := fresh "Hstep" in
     apply bind_Ok_inv in H as (a & Ha & H)).

Section for_each.
Context {A S : Type} (body : S → A → res S).

Lemma for_each_app (l1 l2 : list A) (s : S) :
  for_each body (l1 ++ l2) s = (s' ← for_each body l1 s; for_each body l2 s').
Proof.
  revert s. induction l1 as [|x l1 IH]; intros s; simpl; [done|].
  destruct (body s x) as [s'|e]; simpl; [apply IH | done].
Qed.

(** The invariant rule: [I done s] relates the state to the items
    already processed. *)
Lemma for_each_inv (I : list A → S → Prop) (l : list A) (s0 : S) :
  I [] s0 →
  (∀ done x rest s, l = done ++ x :: rest → I done s →
     ∃ s', body s x = Ok s' ∧ I (done ++ [x]) s') →
  ∃ s', for_each body l s0 = Ok s' ∧ I l s'.
Proof.
  intros H0 Hstep.
  cut (∀ rest done s, l = done ++ rest → I done s →
         ∃ s', for_each body rest s = Ok s' ∧ I (done ++ rest) s').
  { intros Hgen. apply (Hgen l [] s0); done. }
  induction rest as [|x rest IH]; intros done s Hl Hs; simpl.
  - rewrite app_nil_r. eauto.
  - destruct (Hstep done x rest s Hl Hs) as (s' & -> & Hs'). simpl.
    replace (done ++ x :: rest) with ((done ++ [x]) ++ rest)
      by (by rewrite <- app_assoc).
    apply IH; [by rewrite <- app_assoc | done].
Qed.

(** What a returning loop establishes, whatever makes it return. *)
Lemma for_each_Ok_inv (I : list A → S → Prop) (l : list A) (s0 s1 : S) :
  I [] s0 →
  (∀ done x rest s s', l = done ++ x :: rest → I done s →
     body s x = Ok s' → I (done ++ [x]) s') →
  for_each body l s0 = Ok s1 → I l s1.
Proof.
  intros H0 Hstep.
  cut (∀ rest done s, l = done ++ rest → I done s →
         for_each body rest s = Ok s1 → I (done ++ rest) s1).
  { intros Hgen. apply (Hgen l [] s0); done. }
  induction rest as [|x rest IH]; intros done s Hl Hs; simpl.
  - rewrite app_nil_r. by intros [= <-].
  - intros Hrun. apply bind_Ok_inv in Hrun as (s' & Hx & Hrun).
    replace (done ++ x :: rest) with ((done ++ [x]) ++ rest)
      by (by rewrite <- app_assoc).
    eapply IH; [by rewrite <- app_assoc | by eapply Hstep | done].
Qed.

(** A loop whose body never changes the state. *)
Lemma for_each_skip (l : list A) (s : S) :
  (∀ x, x ∈ l → body s x = Ok s) → for_each body l s = Ok s.
Proof.
  induction l as [|x l IH]; intros Hskip; simpl; [done|].
  rewrite Hskip by left. simpl. apply IH. intros y Hy. apply Hskip. by right.
Qed.
End for_each.

(** ** Counting the documents of each class *)

Lemma of_class_app c (l1 l2 : list document) :
  of_class c (l1 ++ l2) = of_class c l1 ++ of_class c l2.
Proof. apply filter_app. Qed.

Lemma count_label_snoc (done : list document) (d : document) (c : string) :
  count_label (done ++ [d]) c
  = count_label done c + (if decide (d.2 = c) then 1 else 0).
Proof.
  unfold count_label. rewrite of_class_app, length_app.
  unfold of_class at 2. rewrite filter_cons, filter_nil.
  destruct (decide (d.2 = c)); simpl; lia.
Qed.

Lemma foldl_insert_lookup {V : Type} (v : V) (classes : list string)
    (d : gmap string V) (c : string) :
  foldl (λ d c, <[c := v]> d) d classes !! c
  = if decide (c ∈ classes) then Some v else d !! c.
Proof.
  revert d. induction classes as [|c' classes IH]; intros d.
  - rewrite decide_False; [done | apply not_elem_of_nil].
  - cbn [foldl]. rewrite IH. destruct (decide (c = c')) as [->|Hne].
    + rewrite lookup_insert_eq, (decide_True (P := c' ∈ c' :: classes)) by left.
      by destruct (decide (c' ∈ classes)).
    + rewrite lookup_insert_ne by done.
      destruct (decide (c ∈ classes)) as [Hin|Hnin].
      * by rewrite decide_True by (by right).
      * rewrite decide_False; [done|]. by intros [?|?]%elem_of_cons.
Qed.

Lemma dict_of_classes_lookup {V : Type} (v : V) (classes : list string)
    (c : string) :
  dict_of_classes v classes !! c = if decide (c ∈ classes) then Some v else None.
Proof. unfold dict_of_classes. by rewrite foldl_insert_lookup, lookup_empty. Qed.

Lemma count_classes_ok (documents : list document) (classes : list string) :
  labels_in documents classes →
  ∃ class_counts,
    count_classes documents classes = Ok class_counts
    ∧ counted classes documents class_counts.
Proof.
  intros Hlabels. unfold count_classes. apply for_each_inv.
  - intros c. by rewrite dict_of_classes_lookup.
  - intros done [wc label] rest cc -> Hcc.
    assert (label ∈ classes) as Hin.
    { apply (Hlabels (wc, label)). rewrite elem_of_app. right. left. }
    unfold Py.getitem. rewrite Hcc, decide_True by done. simpl.
    eexists. split; [done|]. intros c. rewrite count_label_snoc. simpl.
    destruct (decide (label = c)) as [->|Hne].
    + by rewrite lookup_insert_eq, decide_True.
    + rewrite lookup_insert_ne, Hcc by done.
      destruct (decide (c ∈ classes)); [f_equal; lia | done].
Qed.

(** The first document whose label is outside the class set stops the
    counting loop. *)
Lemma count_classes_unknown (pre post : list document)
    (word_counts : gmap string Z) (label : string) (classes : list string) :
  labels_in pre classes → label ∉ classes →
  count_classes (pre ++ (word_counts, label) :: post) classes
  = Raise (KeyError label).
Proof.
  intros Hpre Hnot. unfold count_classes. rewrite for_each_app.
  destruct (count_classes_ok pre classes Hpre) as (cc & Hrun & Hcc).
  unfold count_classes in Hrun. rewrite Hrun. simpl.
  unfold Py.getitem. by rewrite Hcc, decide_False.
Qed.

(** A document list either has all its labels in the class set or splits
    at the first label outside it. *)
Lemma labels_in_dec (documents : list document) (classes : list string) :
  labels_in documents classes
  ∨ ∃ pre word_counts label post,
      documents = pre ++ (word_counts, label) :: post
      ∧ labels_in pre classes ∧ label ∉ classes.
Proof.
  induction documents as [|[wc label] documents IH].
  - left. intros d Hd. by apply elem_of_nil in Hd.
  - destruct (decide (label ∈ classes)) as [Hin|Hnin].
    + destruct IH as [Hall|(pre & wc' & label' & post & -> & Hpre & Hnot)].
      * left. intros d [->|Hd]%elem_of_cons; [done | by apply Hall].
      * right. exists ((wc, label) :: pre), wc', label', post.
        split_and!; [done| |done].
        intros d [->|Hd]%elem_of_cons; [done | by apply Hpre].
    + right. exists [], wc, label, documents. split_and!; [done| |done].
      intros d Hd. by apply elem_of_nil in Hd.
Qed.

(** ** Sums *)

Lemma sumZ_app (l1 l2 : list Z) : sumZ (l1 ++ l2) = sumZ l1 + sumZ l2.
Proof. induction l1 as [|x l1 IH]; simpl; lia. Qed.

Lemma sumZ_perm (l1 l2 : list Z) : l1 ≡ₚ l2 → sumZ l1 = sumZ l2.
Proof. induction 1; simpl; lia. Qed.

Lemma Py_sum_sumZ (l : list Z) : Py.sum l = sumZ l.
Proof.
  unfold Py.sum. cut (∀ a, foldl Z.add a l = a + sumZ l).
  { intros ->. lia. }
  induction l as [|x l IH]; intros a; simpl; [lia|]. rewrite IH. lia.
Qed.

Lemma sumZ_nonneg (l : list Z) : (∀ x, x ∈ l → 0 ≤ x) → 0 ≤ sumZ l.
Proof.
  induction l as [|x l IH]; intros Hl; simpl; [lia|].
  assert (0 ≤ x) by (apply Hl; left).
  assert (0 ≤ sumZ l) by (apply IH; intros y Hy; apply Hl; by right). lia.
Qed.







(** ** Division and logarithm *)

Lemma Q2R_ratio (a b : Z) :
  b ≠ 0 → Q2R (inject_Z a / inject_Z b) = (IZR a / IZR b)%R.
Proof.
  intros Hb. rewrite Q2R_div.
  - unfold Q2R. simpl. by rewrite !RMicromega.Rinv_1.
  - unfold Qeq. simpl. lia.
Qed.

Lemma ratio_pos (a b : Z) : 0 < a → 0 < b → (0 < inject_Z a / inject_Z b)%Q.
Proof.
  intros Ha Hb. apply Qlt_shift_div_l.
  - unfold Qlt. simpl. lia.
  - rewrite Qmult_0_l. unfold Qlt. simpl. lia.
Qed.

Lemma true_div_ok (a b : Z) :
  b ≠ 0 → Py.true_div a b = Ok (inject_Z a / inject_Z b)%Q.
Proof. intros Hb. unfold Py.true_div. by rewrite decide_False. Qed.

Lemma true_div_inv (a b : Z) (q : Q) :
  Py.true_div a b = Ok q → b ≠ 0 ∧ q = (inject_Z a / inject_Z b)%Q.
Proof. unfold Py.true_div. case_decide; [done|]. by intros [= <-]. Qed.

Lemma log_ok (q : Q) : (0 < q)%Q → Py.log q = Ok (ln (Q2R q)).
Proof.
  intros Hq. unfold Py.log. destruct (Qlt_le_dec 0 q) as [_|Hle]; [done|].
  exfalso. eapply Qlt_not_le; eauto.
Qed.

Lemma log_inv (q : Q) (x : R) :
  Py.log q = Ok x → (0 < q)%Q ∧ x = ln (Q2R q).
Proof.
  unfold Py.log. destruct (Qlt_le_dec 0 q) as [Hq|_]; [|done].
  by intros [= <-].
Qed.


(** ** The vocabulary *)

Lemma vocabulary_of_from (V0 : gset string) (documents : list document) :
  foldl (λ V '(word_counts, _), V ∪ dom word_counts) V0 documents
  = V0 ∪ vocabulary_of documents.
Proof.
  unfold vocabulary_of. revert V0.
  induction documents as [|[wc label] documents IH]; intros V0; simpl.
  - by rewrite (right_id_L ∅ (∪)).
  - rewrite IH, (IH (∅ ∪ dom wc)). set_solver.
Qed.

Lemma vocabulary_of_snoc (done : list document) (d : document) :
  vocabulary_of (done ++ [d]) = vocabulary_of done ∪ dom d.1.
Proof. unfold vocabulary_of. rewrite foldl_app. by destruct d. Qed.

Lemma elem_of_vocabulary_of (documents : list document) (w : string) :
  w ∈ vocabulary_of documents ↔ ∃ d, d ∈ documents ∧ w ∈ dom d.1.
Proof.
  induction documents as [|d documents IH] using rev_ind.
  - split; [set_solver|]. intros (d & Hd & _). by apply elem_of_nil in Hd.
  - rewrite vocabulary_of_snoc, elem_of_union, IH. split.
    + intros [(d' & Hd' & Hw)|Hw].
      * exists d'. split; [|done]. apply elem_of_app. by left.
      * exists d. split; [|done]. apply elem_of_app. right. left.
    + intros (d' & [Hd'|Hd']%elem_of_app & Hw); [left; eauto|].
      apply list_elem_of_singleton in Hd' as ->. by right.
Qed.

(** ** Adding the words of one document to its class *)

Lemma values_insert (m : gmap string Z) (k : string) (x : Z) :
  sumZ (Py.values (<[k := x]> m)) = sumZ (Py.values m) - Py.get m k 0 + x.
Proof.
  unfold Py.values, Py.get. destruct (m !! k) as [v|] eqn:Hk; simpl.
  - rewrite <- (insert_delete_eq m k x).
    rewrite (sumZ_perm _ (x :: (map_to_list (delete k m)).*2)).
    + rewrite <- (sumZ_perm (v :: (map_to_list (delete k m)).*2)
                    (map_to_list m).*2).
      * simpl. lia.
      * change (v :: (map_to_list (delete k m)).*2)
          with (((k, v) :: map_to_list (delete k m)).*2).
        apply fmap_Permutation. by apply map_to_list_delete.
    + change (x :: (map_to_list (delete k m)).*2)
        with (((k, x) :: map_to_list (delete k m)).*2).
      apply fmap_Permutation, map_to_list_insert, lookup_delete_eq.
  - rewrite (sumZ_perm _ (x :: (map_to_list m).*2)); [simpl; lia|].
    change (x :: (map_to_list m).*2) with (((k, x) :: map_to_list m).*2).
    by apply fmap_Permutation, map_to_list_insert.
Qed.

Section merge_counts.
Implicit Types (words : gmap string Z) (l : list (string * Z)).

Lemma merge_counts_get words l (w : string) :
  NoDup l.*1 →
  Py.get (merge_counts words l) w 0
  = Py.get words w 0 + Py.get (list_to_map l : gmap string Z) w 0.
Proof.
  revert words. induction l as [|[k n] l IH]; intros words Hnd.
  - unfold Py.get. simpl. rewrite lookup_empty. simpl. lia.
  - apply NoDup_cons in Hnd as [Hk Hnd]. simpl. rewrite IH by done.
    unfold Py.get. destruct (decide (w = k)) as [->|Hne].
    + rewrite !lookup_insert_eq.
      rewrite (not_elem_of_list_to_map_1 _ k) by done. simpl. lia.
    + by rewrite !lookup_insert_ne.
Qed.

Lemma merge_counts_dom words l :
  dom (merge_counts words l) = dom words ∪ list_to_set l.*1.
Proof.
  revert words. induction l as [|[k n] l IH]; intros words; simpl.
  - set_solver.
  - rewrite IH, dom_insert_L. set_solver.
Qed.

Lemma merge_counts_sum words l :
  sumZ (Py.values (merge_counts words l)) = sumZ (Py.values words) + sumZ l.*2.
Proof.
  revert words. induction l as [|[k n] l IH]; intros words; csimpl; [lia|].
  rewrite IH, values_insert. lia.
Qed.

Lemma merge_counts_items_get words (word_counts : gmap string Z) w :
  Py.get (merge_counts words (Py.items word_counts)) w 0
  = Py.get words w 0 + Py.get word_counts w 0.
Proof.
  unfold Py.items. rewrite merge_counts_get by apply NoDup_fst_map_to_list.
  by rewrite list_to_map_to_list.
Qed.

Lemma merge_counts_items_dom words (word_counts : gmap string Z) :
  dom (merge_counts words (Py.items word_counts))
  = dom words ∪ dom word_counts.
Proof.
  rewrite merge_counts_dom. f_equal. apply set_eq. intros w.
  rewrite elem_of_list_to_set, elem_of_dom. unfold Py.items.
  rewrite list_elem_of_fmap. split.
  - intros ([k n] & -> & Hkn%elem_of_map_to_list). eauto.
  - intros [n Hn]. exists (w, n). split; [done|].
    by apply elem_of_map_to_list.
Qed.

(** The inner loop of lines 60-61 on a class that has a bucket. *)
Lemma bigdoc_add_items (bigdoc : gmap string (gmap string Z)) label words l :
  bigdoc !! label = Some words →
  for_each (bigdoc_add label) l bigdoc
  = Ok (<[label := merge_counts words l]> bigdoc).
Proof.
  revert bigdoc words. induction l as [|[k n] l IH]; intros bigdoc words Hw.
  - simpl. by rewrite insert_id.
  - simpl. unfold Py.getitem. rewrite Hw. simpl.
    erewrite IH by apply lookup_insert_eq. by rewrite insert_insert_eq.
Qed.
End merge_counts.

(** ** The per-class word counts *)

Lemma word_count_in_class_snoc (done : list document) (d : document) c w :
  word_count_in_class (done ++ [d]) c w
  = word_count_in_class done c w
    + (if decide (d.2 = c) then Py.get d.1 w 0 else 0).
Proof.
  unfold word_count_in_class. rewrite of_class_app, map_app, sumZ_app.
  unfold of_class at 2. rewrite filter_cons, filter_nil.
  destruct (decide (d.2 = c)); simpl; lia.
Qed.

Lemma total_in_class_snoc (done : list document) (d : document) c :
  total_in_class (done ++ [d]) c
  = total_in_class done c
    + (if decide (d.2 = c) then sumZ (Py.values d.1) else 0).
Proof.
  unfold total_in_class. rewrite of_class_app, map_app, sumZ_app.
  unfold of_class at 2. rewrite filter_cons, filter_nil.
  destruct (decide (d.2 = c)); simpl; lia.
Qed.

Lemma class_words_empty (c : string) : class_words [] c ∅.
Proof.
  split_and!.
  - intros w. unfold Py.get. by rewrite lookup_empty.
  - set_solver.
  - unfold Py.values. by rewrite map_to_list_empty.
Qed.

(** The other classes keep their bucket when a document is added. *)
Lemma class_words_other (done : list document) (d : document) c words :
  d.2 ≠ c → class_words done c words → class_words (done ++ [d]) c words.
Proof.
  intros Hne (Hget & Hdom & Hsum). split_and!.
  - intros w. rewrite word_count_in_class_snoc, decide_False by done.
    rewrite Hget. lia.
  - rewrite vocabulary_of_snoc. set_solver.
  - rewrite total_in_class_snoc, decide_False by done. lia.
Qed.

(** The class of the document receives its words. *)
Lemma class_words_merge (done : list document) word_counts label words :
  class_words done label words →
  class_words (done ++ [(word_counts, label)]) label
    (merge_counts words (Py.items word_counts)).
Proof.
  intros (Hget & Hdom & Hsum). split_and!.
  - intros w. rewrite word_count_in_class_snoc, decide_True by done.
    by rewrite merge_counts_items_get, Hget.
  - rewrite vocabulary_of_snoc, merge_counts_items_dom. set_solver.
  - rewrite total_in_class_snoc, decide_True by done.
    by rewrite merge_counts_sum, Hsum.
Qed.

Lemma build_bigdoc_ok (documents : list document) (classes : list string) :
  labels_in documents classes →
  ∃ bigdoc,
    build_bigdoc documents classes = Ok bigdoc
    ∧ bigdoc_of classes documents bigdoc.
Proof.
  intros Hlabels. unfold build_bigdoc. apply for_each_inv.
  - intros c. rewrite dict_of_classes_lookup. case_decide; [|done].
    eexists. split; [done | apply class_words_empty].
  - intros done [wc label] rest bigdoc -> Hinv.
    assert (label ∈ classes) as Hin.
    { apply (Hlabels (wc, label)). rewrite elem_of_app. right. left. }
    pose proof (Hinv label) as Hlabel. rewrite decide_True in Hlabel by done.
    destruct Hlabel as (words & Hwords & Hcw).
    rewrite (bigdoc_add_items _ _ words) by done.
    eexists. split; [done|]. intros c. specialize (Hinv c).
    destruct (decide (label = c)) as [<-|Hne].
    + rewrite decide_True by done. rewrite lookup_insert_eq.
      eexists. split; [done|]. by apply class_words_merge.
    + rewrite lookup_insert_ne by done. case_decide; [|done].
      destruct Hinv as (words' & Hw' & Hcw'). exists words'. split; [done|].
      by apply class_words_other.
Qed.

(** ** Non-negative counts *)

Lemma get_nonneg (documents : list document) word_counts label w :
  nonneg_counts documents → (word_counts, label) ∈ documents →
  0 ≤ Py.get word_counts w 0.
Proof.
  intros Hnn Hd. unfold Py.get. destruct (word_counts !! w) as [n|] eqn:Hw.
  - simpl. eapply Hnn; eauto.
  - simpl. lia.
Qed.

Lemma word_count_in_class_nonneg (documents : list document) c w :
  nonneg_counts documents → 0 ≤ word_count_in_class documents c w.
Proof.
  intros Hnn. apply sumZ_nonneg. intros x Hx.
  apply list_elem_of_fmap in Hx as ([wc label] & -> & Hd).
  apply list_elem_of_filter in Hd as [_ Hd]. by eapply get_nonneg.
Qed.

Lemma total_in_class_nonneg (documents : list document) c :
  nonneg_counts documents → 0 ≤ total_in_class documents c.
Proof.
  intros Hnn. apply sumZ_nonneg. intros x Hx.
  apply list_elem_of_fmap in Hx as ([wc label] & -> & Hd).
  apply list_elem_of_filter in Hd as [_ Hd].
  apply sumZ_nonneg. intros n Hn. unfold Py.values in Hn.
  apply list_elem_of_fmap in Hn as ([w n'] & -> & Hwn).
  apply elem_of_map_to_list in Hwn. eapply Hnn; eauto.
Qed.

(** ** The log priors *)

Lemma prior_step_inv class_counts N_doc logprior c logprior' :
  prior_step class_counts N_doc logprior c = Ok logprior' →
  ∃ n, class_counts !! c = Some n ∧ N_doc ≠ 0
       ∧ (0 < inject_Z n / inject_Z N_doc)%Q
       ∧ logprior' = <[c := ln (IZR n / IZR N_doc)]> logprior.
Proof.
  unfold prior_step, Py.getitem. intros Hrun.
  destruct (class_counts !! c) as [n|]; [|done]. simpl in Hrun.
  bind_inv Hrun. apply true_div_inv in Hstep as [HN ->].
  apply log_inv in Hstep0 as [Hpos ->]. injection Hrun as <-.
  exists n. by rewrite Q2R_ratio.
Qed.

Lemma prior_step_ok class_counts N_doc logprior c n :
  class_counts !! c = Some n → 0 < n → 0 < N_doc →
  prior_step class_counts N_doc logprior c
  = Ok (<[c := ln (IZR n / IZR N_doc)]> logprior).
Proof.
  intros Hc Hn HN. unfold prior_step, Py.getitem. rewrite Hc. simpl.
  rewrite true_div_ok by lia. simpl.
  rewrite log_ok by (by apply ratio_pos). simpl.
  by rewrite Q2R_ratio by lia.
Qed.

Lemma priors_of_snoc count N_doc done c logprior :
  priors_of count N_doc done logprior →
  priors_of count N_doc (done ++ [c])
    (<[c := ln (IZR (count c) / IZR N_doc)]> logprior).
Proof.
  intros Hinv c'. destruct (decide (c = c')) as [<-|Hne].
  - rewrite lookup_insert_eq, decide_True; [done|].
    apply elem_of_app. right. left.
  - rewrite lookup_insert_ne, Hinv by done.
    destruct (decide (c' ∈ done)) as [Hin|Hnin].
    + rewrite decide_True; [done|]. apply elem_of_app. by left.
    + rewrite decide_False; [done|].
      intros [?|Heq%list_elem_of_singleton]%elem_of_app; [done|]. by subst.
Qed.

Lemma class_priors_ok class_counts N_doc classes (count : string → Z) :
  (∀ c, c ∈ classes → class_counts !! c = Some (count c) ∧ 0 < count c) →
  (classes ≠ [] → 0 < N_doc) →
  ∃ logprior,
    class_priors class_counts N_doc classes = Ok logprior
    ∧ priors_of count N_doc classes logprior.
Proof.
  intros Hcounts HN. unfold class_priors. apply for_each_inv.
  - intros c. rewrite lookup_empty, decide_False; [done|].
    apply not_elem_of_nil.
  - intros done c rest logprior Hcl Hinv.
    destruct (Hcounts c) as [Hc Hpos].
    { rewrite Hcl, elem_of_app. right. left. }
    rewrite (prior_step_ok _ _ _ _ (count c)); try done.
    + eexists. split; [done|]. by apply priors_of_snoc.
    + apply HN. rewrite Hcl. by destruct done.
Qed.

Lemma class_priors_inv class_counts N_doc classes logprior :
  class_priors class_counts N_doc classes = Ok logprior →
  ∀ c, c ∈ classes →
    ∃ n, class_counts !! c = Some n ∧ N_doc ≠ 0
         ∧ (0 < inject_Z n / inject_Z N_doc)%Q.
Proof.
  unfold class_priors.
  apply (for_each_Ok_inv _
           (λ done _, ∀ c, c ∈ done →
              ∃ n, class_counts !! c = Some n ∧ N_doc ≠ 0
                   ∧ (0 < inject_Z n / inject_Z N_doc)%Q)).
  - intros c Hc. by apply elem_of_nil in Hc.
  - intros done c rest lp lp' _ Hinv Hstep c' [Hc'|Hc']%elem_of_app;
      [by apply Hinv|].
    apply list_elem_of_singleton in Hc' as ->.
    apply prior_step_inv in Hstep as (n & Hn & HN & Hpos & _). eauto.
Qed.

Lemma ratio_pos_inv (a b : Z) :
  0 ≤ a → 0 ≤ b → (0 < inject_Z a / inject_Z b)%Q → 0 < a ∧ 0 < b.
Proof.
  intros Ha Hb Hpos. destruct (decide (b = 0)) as [->|Hb0].
  - exfalso. revert Hpos. unfold Qdiv, Qinv, Qlt. simpl. lia.
  - assert (0 < b) as Hb' by lia. split; [|done].
    destruct (decide (a = 0)) as [->|Ha0]; [|lia].
    exfalso. revert Hpos. unfold Qdiv, Qlt, Qmult. simpl. lia.
Qed.

(** ** The smoothed log likelihoods *)

Lemma likelihood_step_inv words V c loglikelihood w loglikelihood' :
  likelihood_step words V c loglikelihood w = Ok loglikelihood' →
  total_words words V ≠ 0 ∧ (0 < smoothed words V w)%Q
  ∧ loglikelihood' = <[(w, c) := ln (Q2R (smoothed words V w))]> loglikelihood.
Proof.
  unfold likelihood_step. intros Hrun. bind_inv Hrun.
  apply true_div_inv in Hstep as [HT ->].
  apply log_inv in Hstep0 as [Hpos ->]. by injection Hrun as <-.
Qed.

Lemma likelihood_step_ok words V c loglikelihood w :
  total_words words V ≠ 0 → (0 < smoothed words V w)%Q →
  likelihood_step words V c loglikelihood w
  = Ok (<[(w, c) := ln (Q2R (smoothed words V w))]> loglikelihood).
Proof.
  intros HT Hpos. unfold likelihood_step.
  rewrite true_div_ok by done. simpl. by rewrite log_ok.
Qed.

Lemma class_likelihoods_ok words V c before (l : list string) :
  (∀ w, w ∈ l → total_words words V ≠ 0 ∧ (0 < smoothed words V w)%Q) →
  ∃ loglikelihood,
    for_each (likelihood_step words V c) l before = Ok loglikelihood
    ∧ class_likelihoods_of words V c before l loglikelihood.
Proof.
  intros Hl. apply for_each_inv.
  - intros w c'. rewrite decide_False; [done|].
    intros [_ Hw]. by apply elem_of_nil in Hw.
  - intros done w rest ll Heq Hinv. destruct (Hl w) as [HT Hpos].
    { rewrite Heq, elem_of_app. right. left. }
    rewrite likelihood_step_ok by done. eexists. split; [done|].
    intros w' c'. destruct (decide ((w, c) = (w', c'))) as [[= <- <-]|Hne].
    + rewrite lookup_insert_eq, decide_True; [done|].
      split; [done|]. apply elem_of_app. right. left.
    + rewrite lookup_insert_ne, Hinv by done.
      destruct (decide (c' = c ∧ w' ∈ done)) as [[-> Hin]|Hnin].
      * rewrite decide_True; [done|]. split; [done|].
        apply elem_of_app. by left.
      * rewrite decide_False; [done|].
        intros [-> [?|Hw']%elem_of_app]; [by apply Hnin|].
        apply list_elem_of_singleton in Hw' as ->. by apply Hne.
Qed.

Lemma class_likelihoods_inv words V c before (l : list string) loglikelihood :
  for_each (likelihood_step words V c) l before = Ok loglikelihood →
  ∀ w, w ∈ l → total_words words V ≠ 0 ∧ (0 < smoothed words V w)%Q.
Proof.
  apply (for_each_Ok_inv _
           (λ done _, ∀ w, w ∈ done →
              total_words words V ≠ 0 ∧ (0 < smoothed words V w)%Q)).
  - intros w Hw. by apply elem_of_nil in Hw.
  - intros done w rest ll ll' _ Hinv Hstep w' [Hw'|Hw']%elem_of_app;
      [by apply Hinv|].
    apply list_elem_of_singleton in Hw' as ->.
    apply likelihood_step_inv in Hstep as (HT & Hpos & _). done.
Qed.

Lemma word_likelihoods_ok bigdoc V classes :
  (∀ c, c ∈ classes → is_Some (bigdoc !! c)) →
  estimable bigdoc V classes →
  ∃ loglikelihood,
    word_likelihoods bigdoc V classes = Ok loglikelihood
    ∧ likelihoods_of bigdoc V classes loglikelihood.
Proof.
  intros Hbuckets Hest. unfold word_likelihoods. apply for_each_inv.
  - intros w c. rewrite lookup_empty, decide_False; [done|].
    intros [Hc _]. by apply elem_of_nil in Hc.
  - intros done c rest ll Heq Hinv.
    assert (c ∈ classes) as Hc by (rewrite Heq, elem_of_app; right; left).
    destruct (Hbuckets c Hc) as [words Hwords].
    unfold Py.getitem. rewrite Hwords. simpl.
    destruct (class_likelihoods_ok words V c ll (elements V))
      as (ll' & -> & Hll').
    { intros w Hw%elem_of_elements. by apply (Hest c). }
    eexists. split; [done|]. intros w c'. rewrite Hll', Hinv.
    destruct (decide (c' = c ∧ w ∈ elements V)) as [[-> Hw]|Hnot].
    + apply elem_of_elements in Hw. rewrite decide_True, Hwords; [done|].
      split; [|done]. apply elem_of_app. right. left.
    + destruct (decide (c' ∈ done ∧ w ∈ V)) as [[Hin Hw]|Hnin].
      * rewrite decide_True; [done|]. split; [|done].
        apply elem_of_app. by left.
      * rewrite decide_False; [done|].
        intros [[?|Hc']%elem_of_app Hw]; [by apply Hnin|].
        apply list_elem_of_singleton in Hc' as ->.
        apply Hnot. by rewrite elem_of_elements.
Qed.

Lemma word_likelihoods_inv bigdoc V classes loglikelihood :
  word_likelihoods bigdoc V classes = Ok loglikelihood →
  estimable bigdoc V classes.
Proof.
  unfold word_likelihoods, estimable.
  apply (for_each_Ok_inv _
           (λ done _, ∀ c words w, c ∈ done → bigdoc !! c = Some words →
              w ∈ V →
              total_words words V ≠ 0 ∧ (0 < smoothed words V w)%Q)).
  - intros c words w Hc. by apply elem_of_nil in Hc.
  - intros done c rest ll ll' _ Hinv Hstep c' words w
      [Hc'|Hc']%elem_of_app Hwords Hw; [by eapply Hinv|].
    apply list_elem_of_singleton in Hc' as ->.
    unfold Py.getitem in Hstep. rewrite Hwords in Hstep. simpl in Hstep.
    eapply class_likelihoods_inv; [done|]. by apply elem_of_elements.
Qed.

(** ** The trainer as a whole *)

Lemma size_pos_of_elem (V : gset string) (w : string) :
  w ∈ V → 0 < Z.of_nat (size V).
Proof.
  intros Hw. assert (size V ≠ 0%nat); [|lia].
  apply size_non_empty_iff. set_solver.
Qed.

Lemma count_label_nonneg (documents : list document) c :
  0 ≤ count_label documents c.
Proof. unfold count_label. lia. Qed.

Lemma count_label_pos (documents : list document) (d : document) :
  d ∈ documents → 0 < count_label documents d.2.
Proof.
  intros Hd. unfold count_label.
  assert (d ∈ of_class d.2 documents) as Hin by (by apply list_elem_of_filter).
  destruct (of_class d.2 documents); [by apply elem_of_nil in Hin|].
  simpl. lia.
Qed.

(** The smoothed estimate in the quantities of the specification. *)
Lemma smoothed_class_words (documents : list document) c words V w :
  class_words documents c words →
  Py.get words w 0 + 1 = word_count_in_class documents c w + 1
  ∧ total_words words V = total_in_class documents c + Z.of_nat (size V).
Proof.
  intros (Hget & _ & Hsum). unfold total_words.
  by rewrite Hget, Py_sum_sumZ, Hsum.
Qed.

(** With non-negative counts, every estimate is positive. *)
Lemma estimable_nonneg (documents : list document) classes bigdoc :
  nonneg_counts documents → bigdoc_of classes documents bigdoc →
  estimable bigdoc (vocabulary_of documents) classes.
Proof.
  intros Hnn Hbig c words w Hc Hwords Hw. specialize (Hbig c).
  rewrite decide_True in Hbig by done.
  destruct Hbig as (words' & Hw' & Hcw). simplify_eq.
  destruct (smoothed_class_words _ _ _ (vocabulary_of documents) w Hcw)
    as [Hn Hd].
  pose proof (word_count_in_class_nonneg documents c w Hnn).
  pose proof (total_in_class_nonneg documents c Hnn).
  pose proof (size_pos_of_elem _ _ Hw).
  split; [lia|]. unfold smoothed. apply ratio_pos; lia.
Qed.

Lemma count_classes_Ok_labels (documents : list document) classes class_counts :
  count_classes documents classes = Ok class_counts →
  labels_in documents classes.
Proof.
  intros Hrun.
  destruct (labels_in_dec documents classes)
    as [?|(pre & wc & label & post & -> & Hpre & Hnot)]; [done|].
  by rewrite count_classes_unknown in Hrun.
Qed.

(** What a returning training run has computed. *)
Lemma train_returns (documents : list document) classes V logprior
    loglikelihood :
  train_naive_bayes documents classes = Ok (V, logprior, loglikelihood) →
  labels_in documents classes
  ∧ V = vocabulary_of documents
  ∧ (∀ c, c ∈ classes → 0 < count_label documents c)
  ∧ (classes ≠ [] → 0 < Z.of_nat (length documents))
  ∧ priors_of (count_label documents) (Z.of_nat (length documents)) classes
      logprior
  ∧ ∃ bigdoc,
      bigdoc_of classes documents bigdoc
      ∧ estimable bigdoc V classes
      ∧ likelihoods_of bigdoc V classes loglikelihood.
Proof.
  unfold train_naive_bayes. intros Hrun. bind_inv Hrun.
  rename a into cc, a0 into lp, a1 into bigdoc, a2 into ll.
  injection Hrun as <- <- <-.
  pose proof (count_classes_Ok_labels _ _ _ Hstep) as Hlabels.
  destruct (count_classes_ok documents classes Hlabels) as (cc' & Hcc' & Hcc).
  assert (cc' = cc) as -> by congruence.
  assert (∀ c, c ∈ classes →
            0 < count_label documents c ∧ 0 < Z.of_nat (length documents))
    as Hpos.
  { intros c Hc.
    destruct (class_priors_inv _ _ _ _ Hstep0 c Hc) as (n & Hn & _ & Hq).
    rewrite Hcc, decide_True in Hn by done. injection Hn as <-.
    apply ratio_pos_inv in Hq; [done | apply count_label_nonneg | lia]. }
  destruct (class_priors_ok cc (Z.of_nat (length documents)) classes
              (count_label documents)) as (lp' & Hlp' & Hlp).
  { intros c Hc. rewrite Hcc, decide_True by done.
    split; [done | by apply Hpos]. }
  { destruct classes as [|c classes]; [done|]. intros _.
    apply (Hpos c). left. }
  assert (lp' = lp) as -> by congruence.
  destruct (build_bigdoc_ok documents classes Hlabels) as (bd' & Hbd' & Hbd).
  assert (bd' = bigdoc) as -> by congruence.
  pose proof (word_likelihoods_inv _ _ _ _ Hstep2) as Hest.
  destruct (word_likelihoods_ok bigdoc (vocabulary_of documents) classes)
    as (ll' & Hll' & Hll); [|done|].
  { intros c Hc. specialize (Hbd c). rewrite decide_True in Hbd by done.
    destruct Hbd as (words & -> & _). done. }
  assert (ll' = ll) as -> by congruence.
  split_and!; try done.
  - intros c Hc. by apply Hpos.
  - destruct classes as [|c classes]; [done|]. intros _. apply (Hpos c). left.
  - eauto.
Qed.

(** Training returns whenever the labels are those of the class set, every
    class labels a document, and no count is negative. *)
Lemma train_total (documents : list document) classes :
  labels_in documents classes → classes_inhabited documents classes →
  nonneg_counts documents →
  ∃ logprior loglikelihood,
    train_naive_bayes documents classes
    = Ok (vocabulary_of documents, logprior, loglikelihood).
Proof.
  intros Hlabels Hinh Hnn. unfold train_naive_bayes.
  destruct (count_classes_ok documents classes Hlabels) as (cc & -> & Hcc).
  simpl.
  destruct (class_priors_ok cc (Z.of_nat (length documents)) classes
              (count_label documents)) as (lp & -> & Hlp).
  { intros c Hc. rewrite Hcc, decide_True by done. split; [done|].
    destruct (Hinh c Hc) as (d & Hd & <-). by apply count_label_pos. }
  { destruct classes as [|c classes]; [done|]. intros _.
    destruct (Hinh c) as (d & Hd & _); [left|].
    destruct documents; [by apply elem_of_nil in Hd | simpl; lia]. }
  simpl.
  destruct (build_bigdoc_ok documents classes Hlabels) as (bigdoc & -> & Hbd).
  simpl.
  destruct (word_likelihoods_ok bigdoc (vocabulary_of documents) classes)
    as (ll & -> & Hll).
  { intros c Hc. specialize (Hbd c). rewrite decide_True in Hbd by done.
    destruct Hbd as (words & -> & _). done. }
  { by apply estimable_nonneg. }
  simpl. eauto.
Qed.

(** ** Normalisation *)






(** ** Checking the hypotheses on concrete inputs *)

Lemma labels_in_Forall (documents : list document) classes :
  Forall (λ d, d.2 ∈ classes) documents → labels_in documents classes.
Proof. intros H d Hd. by apply (proj1 (Forall_forall _ _) H). Defined.

Lemma classes_inhabited_Forall (documents : list document) classes :
  Forall (λ c, Exists (λ d : document, d.2 = c) documents) classes →
  classes_inhabited documents classes.
Proof.
  intros H c Hc. apply (proj1 (Forall_forall _ _) H) in Hc.
  apply Exists_exists in Hc as (d & Hd & Heq). eauto.
Defined.

Lemma nonneg_counts_Forall (documents : list document) :
  Forall (λ d : document, Forall (λ p, 0 ≤ p.2) (map_to_list d.1)) documents →
  nonneg_counts documents.
Proof.
  intros H wc label w n Hd Hw.
  apply (proj1 (Forall_forall _ _) H) in Hd. simpl in Hd.
  apply elem_of_map_to_list in Hw.
  by apply (proj1 (Forall_forall _ _) Hd) in Hw.
Defined.

(** Decides a closed decidable proposition by evaluation. *)
Ltac by_evaluation := apply (bool_decide_unpack _); vm_compute; exact I.

Lemma scenario_labels : labels_in scenario_docs ["pos"; "neg"].
Proof. apply labels_in_Forall. by_evaluation. Defined.

Lemma scenario_inhabited : classes_inhabited scenario_docs ["pos"; "neg"].
Proof. apply classes_inhabited_Forall. by_evaluation. Defined.

Lemma scenario_nonneg : nonneg_counts scenario_docs.
Proof. apply nonneg_counts_Forall. by_evaluation. Defined.

(** ** The classifier *)

Lemma ODict_set_fresh {V : Type} (k : string) (v : V) (d : ODict.t V) :
  k ∉ d.*1 → ODict.set k v d = d ++ [(k, v)].
Proof.
  induction d as [|[k' v'] d IH]; intros Hk; simpl; [done|].
  rewrite fmap_cons, not_elem_of_cons in Hk. destruct Hk as [Hne Hk].
  rewrite decide_False by done. by rewrite IH.
Qed.

Lemma ODict_set_keys {V : Type} (k : string) (v : V) (d : ODict.t V) :
  k ∈ d.*1 → (ODict.set k v d).*1 = d.*1.
Proof.
  induction d as [|[k' v'] d IH]; intros Hk; [by apply elem_of_nil in Hk|].
  simpl. destruct (decide (k' = k)) as [->|Hne]; [done|].
  rewrite fmap_cons, elem_of_cons in Hk. destruct Hk as [?|Hk]; [by subst|].
  csimpl. by rewrite IH.
Qed.

Lemma ODict_getitem_keys {V : Type} (k : string) (v : V) (d : ODict.t V) :
  ODict.getitem d k = Ok v → k ∈ d.*1.
Proof.
  induction d as [|[k' v'] d IH]; simpl; [done|].
  destruct (decide (k' = k)) as [->|Hne]; intros Hget; [left|].
  right. by apply IH.
Qed.

(** The scores start as the priors, in the order of the classes. *)
Lemma initial_scores_ok (logprior : gmap string R) (classes : list string) :
  NoDup classes → (∀ c, c ∈ classes → is_Some (logprior !! c)) →
  initial_scores logprior classes
  = Ok (map (λ c, (c, Py.get logprior c 0%R)) classes).
Proof.
  intros Hnd Hlp.
  destruct (for_each_inv
              (λ scores c, p ← Py.getitem logprior c;
                           Ok (ODict.set c p scores))
              (λ done scores,
                 scores = map (λ c, (c, Py.get logprior c 0%R)) done)
              classes []) as (scores & Hrun & ->); [done| |done].
  intros done c rest scores Heq ->.
  destruct (Hlp c) as [p Hp]; [rewrite Heq, elem_of_app; right; left|].
  unfold Py.getitem. rewrite Hp. simpl. eexists. split; [done|].
  rewrite ODict_set_fresh.
  - rewrite map_app. simpl. unfold Py.get. by rewrite Hp.
  - rewrite Heq in Hnd. apply NoDup_app in Hnd as (_ & Hdisj & _).
    rewrite <- list_fmap_compose. intros Hin.
    apply list_elem_of_fmap in Hin as (c' & -> & Hc').
    apply (Hdisj _ Hc'). left.
Qed.

(** Words outside the vocabulary leave the scores as they are. *)
Lemma accumulate_scores_unknown word_counts V loglikelihood classes scores :
  (∀ w, w ∈ dom word_counts → w ∉ V) →
  accumulate_scores word_counts V loglikelihood classes scores = Ok scores.
Proof.
  intros Hunknown. unfold accumulate_scores. apply for_each_skip.
  intros [w n] Hwn. unfold Py.items in Hwn.
  apply elem_of_map_to_list in Hwn. rewrite decide_False; [done|].
  apply Hunknown, elem_of_dom. eauto.
Qed.

(** The keys of [scores] and their order never change. *)
Lemma accumulate_scores_keys word_counts V loglikelihood classes scores
    scores' :
  accumulate_scores word_counts V loglikelihood classes scores = Ok scores' →
  scores'.*1 = scores.*1.
Proof.
  unfold accumulate_scores.
  apply (for_each_Ok_inv _ (λ _ s, s.*1 = scores.*1)); [done|].
  intros _ [w n] _ s s' _ Hs. case_decide; [|by intros [= <-]].
  rewrite <- Hs.
  apply (for_each_Ok_inv _ (λ _ s', s'.*1 = s.*1)); [done|].
  intros _ c _ t t' _ Ht. unfold add_score. intros Hrun. bind_inv Hrun.
  injection Hrun as <-. rewrite <- Ht.
  apply ODict_set_keys. by eapply ODict_getitem_keys.
Qed.

(** [max] returns the first item that no item exceeds: the items before
    it are strictly smaller, the items after it are not larger. *)
Lemma max_fold_first (l pre mid : list (string * R)) (b : string * R) :
  Forall (λ y, (y.2 < b.2)%R) pre → Forall (λ y, (y.2 <= b.2)%R) mid →
  let best := foldl (λ best y, if Rlt_dec best.2 y.2 then y else best) b l in
  ∃ pre' post',
    pre ++ b :: mid ++ l = pre' ++ best :: post'
    ∧ Forall (λ y, (y.2 < best.2)%R) pre'
    ∧ Forall (λ y, (y.2 <= best.2)%R) post'.
Proof.
  revert pre mid b. induction l as [|y l IH]; intros pre mid b Hpre Hmid; simpl.
  - exists pre, mid. by rewrite app_nil_r.
  - destruct (Rlt_dec b.2 y.2) as [Hlt|Hnlt].
    + destruct (IH (pre ++ b :: mid) [] y) as (pre' & post' & Heq & ? & ?).
      * apply Forall_app. split; [|apply Forall_cons; split; [done|]].
        -- eapply Forall_impl; [exact Hpre|]. simpl. intros; lra.
        -- eapply Forall_impl; [exact Hmid|]. simpl. intros; lra.
      * done.
      * exists pre', post'. split; [|done]. rewrite <- Heq.
        by rewrite <- app_assoc.
    + destruct (IH pre (mid ++ [y]) b) as (pre' & post' & Heq & ? & ?).
      * done.
      * apply Forall_app. split; [done|]. apply Forall_singleton. lra.
      * exists pre', post'. split; [|done]. rewrite <- Heq.
        by rewrite <- app_assoc.
Qed.

Lemma max_by_value_first (l : list (string * R)) :
  l ≠ [] →
  ∃ best pre post,
    max_by_value l = Ok best
    ∧ l = pre ++ best :: post
    ∧ Forall (λ y, (y.2 < best.2)%R) pre
    ∧ Forall (λ y, (y.2 <= best.2)%R) post.
Proof.
  destruct l as [|x l]; [done|]. intros _. simpl.
  destruct (max_fold_first l [] [] x) as (pre & post & Heq & ? & ?);
    [done..|].
  eexists _, pre, post. split; [done|]. by split.
Qed.

Lemma initial_scores_inv (logprior : gmap string R) (classes : list string)
    scores :
  initial_scores logprior classes = Ok scores →
  ∀ c, c ∈ classes → is_Some (logprior !! c).
Proof.
  unfold initial_scores.
  apply (for_each_Ok_inv _
           (λ done _, ∀ c, c ∈ done → is_Some (logprior !! c))).
  - intros c Hc. by apply elem_of_nil in Hc.
  - intros done c rest s s' _ Hinv Hstep c' [Hc'|Hc']%elem_of_app;
      [by apply Hinv|].
    apply list_elem_of_singleton in Hc' as ->.
    unfold Py.getitem in Hstep. by destruct (logprior !! c).
Qed.

(** The keys of [scores] are the classes, in their iteration order. *)
Lemma class_scores_keys word_counts V logprior loglikelihood classes scores :
  NoDup classes →
  class_scores word_counts V logprior loglikelihood classes = Ok scores →
  scores.*1 = classes.
Proof.
  intros Hnd. unfold class_scores. intros Hrun. bind_inv Hrun.
  rewrite (accumulate_scores_keys _ _ _ _ _ _ Hrun).
  rewrite initial_scores_ok in Hstep
    by eauto using initial_scores_inv.
  injection Hstep as <-. rewrite <- list_fmap_compose.
  apply list_fmap_id.
Qed.

(** The position of the item returned by [max]. *)
Lemma max_by_value_index (l : list (string * R)) :
  l ≠ [] →
  ∃ best i,
    max_by_value l = Ok best
    ∧ l !! i = Some best
    ∧ (∀ j y, l !! j = Some y → (y.2 <= best.2)%R)
    ∧ (∀ j y, (j < i)%nat → l !! j = Some y → (y.2 < best.2)%R).
Proof.
  intros Hne.
  destruct (max_by_value_first l Hne)
    as (best & pre & post & Hmax & -> & Hpre & Hpost).
  exists best, (length pre). split_and!; [done| | |].
  - by rewrite list_lookup_middle.
  - intros j y Hj. apply list_elem_of_lookup_2 in Hj.
    apply elem_of_app in Hj as [Hj|Hj].
    + apply (proj1 (Forall_forall _ _) Hpre) in Hj. simpl in Hj. lra.
    + apply elem_of_cons in Hj as [->|Hj]; [lra|].
      by apply (proj1 (Forall_forall _ _) Hpost) in Hj.
  - intros j y Hlt Hj. rewrite lookup_app_l in Hj by done.
    apply list_elem_of_lookup_2 in Hj.
    by apply (proj1 (Forall_forall _ _) Hpre) in Hj.
Qed.

(** ** The scenario *)

Lemma scenario_loaded :
  load_preprocessed_data scenario_lines = Ok (scenario_docs, scenario_V).
Proof. vm_compute. reflexivity. Qed.

(** The two iteration orders of the set [{'pos', 'neg'}]. *)
Lemma pos_neg_orders (classes : list string) :
  classes ≡ₚ ["pos"; "neg"] →
  classes = ["pos"; "neg"] ∨ classes = ["neg"; "pos"].
Proof.
  intros Hperm. symmetry in Hperm.
  by apply Permutation.Permutation_length_2_inv in Hperm.
Qed.

Lemma scenario_trained (classes : list string) :
  classes ≡ₚ ["pos"; "neg"] →
  train_naive_bayes scenario_docs classes
  = Ok (scenario_V, scenario_logprior, scenario_loglikelihood).
Proof.
  intros [-> | ->]%pos_neg_orders; vm_compute; reflexivity.
Qed.

(** The scores of the document [{"great": 1}]. *)
Lemma scenario_scores (classes : list string) :
  classes ≡ₚ ["pos"; "neg"] →
  class_scores {["great" := 1]} scenario_V scenario_logprior
    scenario_loglikelihood classes
  = Ok (map (λ c, (c, (ln (1 / 2)
                       + IZR 1 * Py.get scenario_loglikelihood ("great", c) 0)%R))
          classes).
Proof. intros [-> | ->]%pos_neg_orders; reflexivity. Qed.

Lemma scenario_score_order :
  (ln (1 / 2) + IZR 1 * ln (1 / 6) < ln (1 / 2) + IZR 1 * ln (3 / 6))%R.
Proof.
  apply Rplus_lt_compat_l. rewrite !Rmult_1_l. apply ln_increasing; lra.
Qed.

Lemma scenario_classified (classes : list string) :
  classes ≡ₚ ["pos"; "neg"] →
  test_naive_bayes {["great" := 1]} scenario_V scenario_logprior
    scenario_loglikelihood classes = Ok "pos".
Proof.
  intros Hperm. unfold test_naive_bayes. rewrite scenario_scores by done.
  pose proof scenario_score_order as Horder.
  apply pos_neg_orders in Hperm as [-> | ->]; simpl;
    change (Py.get scenario_loglikelihood ("great", "pos") 0%R)
      with (ln (3 / 6));
    change (Py.get scenario_loglikelihood ("great", "neg") 0%R)
      with (ln (1 / 6));
    destruct (Rlt_dec _ _) as [Hlt|Hnlt]; simpl; try done; lra.
Qed.

(** ** The loader *)

Lemma split_on_nonempty (sep : ascii) (s : string) : Py.split_on sep s ≠ [].
Proof.
  destruct s as [|c s]; simpl; [done|].
  case_decide; [done|]. by destruct (Py.split_on sep s).
Qed.

Lemma split_on_no_colon (s : string) :
  partition_colon s = None → Py.split_on ":" s = [s].
Proof.
  induction s as [|c s IH]; simpl; [done|].
  case_decide; [done|]. destruct (partition_colon s) as [[a b]|]; [done|].
  intros _. by rewrite IH.
Qed.

Lemma split_on_first_colon (s a b : string) :
  partition_colon s = Some (a, b) →
  Py.split_on ":" s = a :: Py.split_on ":" b ∧ s = a +:+ ":" +:+ b.
Proof.
  revert a. induction s as [|c s IH]; intros a; simpl; [done|].
  case_decide as Hc.
  - intros [= <- <-]. by subst.
  - destruct (partition_colon s) as [[a' b']|]; [|done].
    intros [= <- <-]. destruct (IH a' eq_refl) as [-> ->]. done.
Qed.

Lemma partition_colon_occurs (s : string) :
  is_Some (partition_colon s) ↔ occurs ":" s.
Proof.
  induction s as [|c s IH]; simpl.
  - split; [by intros [? ?] | done].
  - case_decide as Hc.
    + split; [by left | by eexists].
    + rewrite <- IH. rewrite fmap_is_Some. split; [by right|].
      by intros [?|?].
Qed.

Lemma occurs_lstrip (c : ascii) (s : string) :
  Py.isspace c = false → occurs c s → occurs c (Py.lstrip s).
Proof.
  intros Hc. induction s as [|c' s IH]; simpl; [done|].
  destruct (Py.isspace c') eqn:Hc'; [|done].
  intros [->|?]; [congruence | by apply IH].
Qed.

Lemma occurs_rstrip (c : ascii) (s : string) :
  Py.isspace c = false → occurs c s → occurs c (Py.rstrip s).
Proof.
  intros Hc. induction s as [|c' s IH]; simpl; [done|].
  intros [->|Hs].
  - destruct (Py.rstrip s); [rewrite Hc|]; by left.
  - specialize (IH Hs). destruct (Py.rstrip s); [done|]. by right.
Qed.

Lemma digits_colon (acc : Z) (prev : bool) (s : string) :
  occurs ":" s → Py.digits acc prev s = None.
Proof.
  revert acc prev. induction s as [|c s IH]; intros acc prev; simpl; [done|].
  intros [->|Hs]; [by destruct prev|].
  destruct (Py.digit c); [by apply IH|].
  case_decide; [|done]. destruct prev; [by apply IH | done].
Qed.

(** A count that contains a colon is not an integer literal. *)
Lemma int_colon (s : string) : occurs ":" s → Py.int s = Raise ValueError.
Proof.
  intros Hs. unfold Py.int.
  assert (occurs ":" (Py.strip s)) as Hstrip.
  { unfold Py.strip. by apply occurs_rstrip, occurs_lstrip. }
  destruct (Py.strip s) as [|c s']; [done|]. simpl in Hstrip.
  assert (Py.digits 0 false (String c s') = None) as Hall
    by (by apply digits_colon).
  repeat case_decide; subst.
  - destruct Hstrip as [?|Hs']; [done|]. by rewrite digits_colon.
  - destruct Hstrip as [?|Hs']; [done|]. by rewrite digits_colon.
  - by rewrite Hall.
Qed.

Lemma int_raises (s : string) (e : exn) : Py.int s = Raise e → e = ValueError.
Proof.
  unfold Py.int. destruct (match Py.strip s with EmptyString => _ | _ => _ end);
    congruence.
Qed.

(** The code splits at every colon and requires two parts; this is the
    split at the first colon, because no count contains a colon. *)
Lemma load_segment_first_colon (word_counts : gmap string Z)
    (vocabulary : gset string) (word_count : string) :
  load_segment (word_counts, vocabulary) word_count
  = ('(word, n) ← parse_segment_first_colon word_count;
     Ok (<[word := n]> word_counts, {[word]} ∪ vocabulary)).
Proof.
  unfold load_segment, parse_segment_first_colon.
  destruct (partition_colon word_count) as [[word count]|] eqn:Hpart.
  - destruct (split_on_first_colon _ _ _ Hpart) as [-> _].
    destruct (partition_colon count) as [[a b]|] eqn:Hcount.
    + assert (is_Some (partition_colon count)) by (by rewrite Hcount).
      destruct (split_on_first_colon _ _ _ Hcount) as [-> _].
      rewrite (int_colon count)
        by exact (proj1 (partition_colon_occurs count) H).
      pose proof (split_on_nonempty ":" b).
      by destruct (Py.split_on ":" b).
    + rewrite split_on_no_colon by done. by destruct (Py.int count).
  - by rewrite split_on_no_colon.
Qed.

Section for_each_raise.
Context {A S : Type} (body : S → A → res S).

(** A loop raises only what its body raises. *)
Lemma for_each_Raise_inv (P : exn → Prop) (l : list A) (s : S) (e : exn) :
  (∀ s x e, body s x = Raise e → P e) →
  for_each body l s = Raise e → P e.
Proof.
  intros Hbody. revert s. induction l as [|x l IH]; intros s; simpl; [done|].
  destruct (body s x) as [s'|e'] eqn:Hx; simpl.
  - apply IH.
  - intros [= <-]. by eapply Hbody.
Qed.

(** An item on which the body always raises makes the loop raise. *)
Lemma for_each_raises (l : list A) (x : A) (s : S) :
  x ∈ l → (∀ s, ∃ e, body s x = Raise e) →
  ∃ e, for_each body l s = Raise e.
Proof.
  intros Hx Hraise. revert s.
  induction l as [|y l IH]; intros s; [by apply elem_of_nil in Hx|].
  simpl. apply elem_of_cons in Hx as [<-|Hx].
  - destruct (Hraise s) as [e ->]. by exists e.
  - destruct (body s y) as [s'|e]; simpl; [by apply IH | by exists e].
Qed.
End for_each_raise.

Lemma parse_segment_raises (word_count : string) (e : exn) :
  parse_segment_first_colon word_count = Raise e → e = ValueError.
Proof.
  unfold parse_segment_first_colon.
  destruct (partition_colon word_count) as [[word count]|]; [|congruence].
  destruct (Py.int count) as [n|e'] eqn:Hint; simpl; [done|].
  intros [= <-]. by eapply int_raises.
Qed.

(** A well-formed segment is a word, a colon, and an integer literal. *)
Lemma parse_segment_Ok_inv (word_count word : string) (n : Z) :
  parse_segment_first_colon word_count = Ok (word, n) →
  ∃ count, word_count = word +:+ ":" +:+ count ∧ Py.int count = Ok n.
Proof.
  unfold parse_segment_first_colon.
  destruct (partition_colon word_count) as [[word' count]|] eqn:Hpart; [|done].
  intros Hrun. bind_inv Hrun. injection Hrun as <- <-.
  exists count. split; [|done]. by apply split_on_first_colon.
Qed.

Lemma load_segment_Ok_inv word_counts vocabulary word_count word_counts'
    vocabulary' :
  load_segment (word_counts, vocabulary) word_count
  = Ok (word_counts', vocabulary') →
  ∃ word n,
    parse_segment_first_colon word_count = Ok (word, n)
    ∧ word_counts' = <[word := n]> word_counts
    ∧ vocabulary' = {[word]} ∪ vocabulary.
Proof.
  rewrite load_segment_first_colon. intros Hrun.
  apply bind_Ok_inv in Hrun as ([word n] & Hparse & Hrun).
  injection Hrun as <- <-. eauto.
Qed.

Lemma load_segment_raises st word_count e :
  load_segment st word_count = Raise e → e = ValueError.
Proof.
  destruct st as [wc v]. rewrite load_segment_first_colon.
  destruct (parse_segment_first_colon word_count) as [[word n]|e'] eqn:Hparse;
    simpl; [done|].
  intros [= <-]. by eapply parse_segment_raises.
Qed.

(** The segments of one line: the words added to the vocabulary are the
    keys of the document, and every count is the integer of a segment. *)
Lemma load_segments_Ok_inv (rest : list string) vocabulary word_counts
    vocabulary' :
  for_each load_segment rest (∅, vocabulary) = Ok (word_counts, vocabulary') →
  vocabulary' = vocabulary ∪ dom word_counts
  ∧ ∀ w n, word_counts !! w = Some n →
      ∃ word_count, word_count ∈ rest
                    ∧ parse_segment_first_colon word_count = Ok (w, n).
Proof.
  apply (for_each_Ok_inv load_segment
           (λ done st,
              st.2 = vocabulary ∪ dom st.1
              ∧ ∀ w n, st.1 !! w = Some n →
                  ∃ word_count, word_count ∈ done
                    ∧ parse_segment_first_colon word_count = Ok (w, n))
           rest (∅, vocabulary) (word_counts, vocabulary')).
  - simpl. split; [set_solver | by intros w n; rewrite lookup_empty].
  - intros done seg rest' [wc v] [wc' v'] _ [Hv Hwc] Hstep. simpl in *.
    apply load_segment_Ok_inv in Hstep as (word & n & Hparse & -> & ->).
    split; [rewrite dom_insert_L; set_solver|].
    intros w m. destruct (decide (word = w)) as [->|Hne].
    + rewrite lookup_insert_eq. intros [= <-]. exists seg. split; [|done].
      apply elem_of_app. right. left.
    + rewrite lookup_insert_ne by done. intros Hw.
      destruct (Hwc w m Hw) as (seg' & Hin & Hseg'). exists seg'.
      split; [|done]. apply elem_of_app. by left.
Qed.

Lemma load_line_Ok_inv documents vocabulary line documents' vocabulary' :
  load_line (documents, vocabulary) line = Ok (documents', vocabulary') →
  (Py.split (Py.strip line) = [] ∧ documents' = documents
   ∧ vocabulary' = vocabulary)
  ∨ ∃ label rest word_counts,
      Py.split (Py.strip line) = label :: rest
      ∧ for_each load_segment rest (∅, vocabulary)
        = Ok (word_counts, vocabulary')
      ∧ documents' = documents ++ [(word_counts, label)].
Proof.
  unfold load_line. destruct (Py.split (Py.strip line)) as [|label rest].
  - intros [= <- <-]. by left.
  - intros Hrun. apply bind_Ok_inv in Hrun as ([wc v] & Hsegs & Hrun).
    injection Hrun as <- <-. right. by exists label, rest, wc.
Qed.

Lemma load_line_raises st line e :
  load_line st line = Raise e → e = ValueError.
Proof.
  destruct st as [documents vocabulary]. unfold load_line.
  destruct (Py.split (Py.strip line)) as [|label rest]; [done|].
  destruct (for_each load_segment rest (∅, vocabulary)) as [[wc v]|e'] eqn:Hrun;
    simpl; [done|].
  intros [= <-].
  apply (for_each_Raise_inv load_segment (λ e, e = ValueError)) in Hrun;
    [done|]. apply load_segment_raises.
Qed.

(** A line with a malformed segment raises, whatever was loaded before. *)
Lemma load_line_malformed st line label rest word_count :
  Py.split (Py.strip line) = label :: rest → word_count ∈ rest →
  parse_segment_first_colon word_count = Raise ValueError →
  load_line st line = Raise ValueError.
Proof.
  intros Hsplit Hin Hbad. destruct st as [documents vocabulary].
  destruct (for_each_raises load_segment rest word_count (∅, vocabulary) Hin)
    as [e He].
  { intros [wc v]. rewrite load_segment_first_colon, Hbad. by eexists. }
  pose proof (for_each_Raise_inv load_segment (λ e, e = ValueError) _ _ _
                load_segment_raises He) as ->.
  unfold load_line. by rewrite Hsplit, He.
Qed.

(** What a successful load has read. *)
Lemma load_Ok_inv (lines : list string) documents vocabulary :
  load_preprocessed_data lines = Ok (documents, vocabulary) →
  vocabulary = vocabulary_of documents
  ∧ ∀ word_counts label w n,
      (word_counts, label) ∈ documents → word_counts !! w = Some n →
      ∃ line rest word_count,
        line ∈ lines ∧ Py.split (Py.strip line) = label :: rest
        ∧ word_count ∈ rest
        ∧ parse_segment_first_colon word_count = Ok (w, n).
Proof.
  unfold load_preprocessed_data.
  apply (for_each_Ok_inv load_line
           (λ done st,
              st.2 = vocabulary_of st.1
              ∧ ∀ word_counts label w n,
                  (word_counts, label) ∈ st.1 → word_counts !! w = Some n →
                  ∃ line rest word_count,
                    line ∈ done ∧ Py.split (Py.strip line) = label :: rest
                    ∧ word_count ∈ rest
                    ∧ parse_segment_first_colon word_count = Ok (w, n))
           lines ([], ∅) (documents, vocabulary)).
  - simpl. split; [done|]. intros wc label w n Hin. by apply elem_of_nil in Hin.
  - intros done line rest' [docs v] [docs' v'] _ [Hv Hdocs] Hstep.
    simpl in *.
    apply load_line_Ok_inv in Hstep
      as [(_ & -> & ->)|(label & rest & wc & Hsplit & Hsegs & ->)].
    + split; [done|]. intros wc label w n Hin Hw.
      destruct (Hdocs wc label w n Hin Hw) as (l & r & seg & ? & ?).
      exists l, r, seg. split; [|done]. apply elem_of_app. by left.
    + apply load_segments_Ok_inv in Hsegs as [-> Hwc].
      split; [by rewrite vocabulary_of_snoc, Hv|].
      intros wc' label' w n [Hin|Hin]%elem_of_app Hw.
      * destruct (Hdocs wc' label' w n Hin Hw) as (l & r & seg & ? & ?).
        exists l, r, seg. split; [|done]. apply elem_of_app. by left.
      * apply list_elem_of_singleton in Hin. injection Hin as -> ->.
        destruct (Hwc w n Hw) as (seg & Hseg & Hparse).
        exists line, rest, seg. split_and!; try done.
        apply elem_of_app. right. left.
Qed.

(** ** The predictions file *)

Lemma append_cons (c : ascii) (s t : string) :
  String c s +:+ t = String c (s +:+ t).
Proof. reflexivity. Qed.

Lemma append_assoc (s t u : string) : (s +:+ t) +:+ u = s +:+ (t +:+ u).
Proof.
  induction s as [|c s IH]; [done|]. by rewrite !append_cons, IH.
Qed.

Lemma append_empty_r (s : string) : s +:+ "" = s.
Proof. induction s as [|c s IH]; [done|]. by rewrite append_cons, IH. Qed.

Lemma write_prediction_step V logprior loglikelihood classes out correct total
    word_counts true_label p :
  test_naive_bayes word_counts V logprior loglikelihood classes = Ok p →
  write_prediction V logprior loglikelihood classes (out, correct, total)
    (word_counts, true_label)
  = Ok (out +:+ p +:+ nl,
        if decide (p = true_label) then correct + 1 else correct,
        total + 1).
Proof. intros Hp. unfold write_prediction. by rewrite Hp. Qed.

(** The loop over the test documents appends one line per document and
    counts the documents and the correct predictions. *)
Lemma write_prediction_loop V logprior loglikelihood classes
    (test_docs : list document) (predictions : list string) :
  Forall2
    (λ (d : document) p,
       test_naive_bayes d.1 V logprior loglikelihood classes = Ok p)
    test_docs predictions →
  ∀ out correct total,
    for_each (write_prediction V logprior loglikelihood classes) test_docs
      (out, correct, total)
    = Ok (out +:+ predictions_text predictions,
          correct + count_correct predictions test_docs,
          total + Z.of_nat (length test_docs)).
Proof.
  induction 1 as [|[wc label] p test_docs predictions Hp _ IH];
    intros out correct total.
  - simpl. rewrite append_empty_r. do 2 f_equal; [f_equal|];
      unfold count_correct; simpl; lia.
  - simpl in Hp. cbn [for_each].
    rewrite (write_prediction_step _ _ _ _ _ _ _ _ _ p) by done.
    simpl. rewrite IH. do 2 f_equal; [f_equal|].
    + by rewrite !append_assoc.
    + unfold count_correct. simpl. case_decide; lia.
    + simpl length. lia.
Qed.



Lemma write_predictions_ok V logprior loglikelihood classes
    (test_docs : list document) (predictions : list string) :
  test_docs ≠ [] →
  Forall2
    (λ (d : document) p,
       test_naive_bayes d.1 V logprior loglikelihood classes = Ok p)
    test_docs predictions →
  write_predictions test_docs V logprior loglikelihood classes
  = Ok (predictions_text predictions +:+ nl +:+ "Accuracy: "
        +:+ format_2f (inject_Z (count_correct predictions test_docs)
                       / inject_Z (Z.of_nat (length test_docs)) * 100)%Q
        +:+ "%").
Proof.
  intros Hne Hpreds. unfold write_predictions.
  rewrite (write_prediction_loop _ _ _ _ _ _ Hpreds). simpl.
  rewrite true_div_ok; [done|]. destruct test_docs; [done | simpl; lia].
Qed.


(** ** The loader, line by line *)

Lemma assign_all_dom (d : gmap string Z) (pairs : list (string * Z)) :
  dom (assign_all d pairs) = list_to_set pairs.*1 ∪ dom d.
Proof.
  revert d. induction pairs as [|[w n] pairs IH]; intros d; csimpl.
  - set_solver.
  - unfold assign_all in *. simpl. rewrite IH, dom_insert_L. set_solver.
Qed.

Lemma assign_all_app (d : gmap string Z) (p1 p2 : list (string * Z)) :
  assign_all d (p1 ++ p2) = assign_all (assign_all d p1) p2.
Proof. apply foldl_app. Qed.

Lemma assign_all_notin (d : gmap string Z) (pairs : list (string * Z)) w :
  w ∉ pairs.*1 → assign_all d pairs !! w = d !! w.
Proof.
  revert d. induction pairs as [|[w' n] pairs IH]; intros d Hw; [done|].
  rewrite fmap_cons, not_elem_of_cons in Hw. destruct Hw as [Hne Hw].
  unfold assign_all in *. simpl. rewrite IH by done.
  by rewrite lookup_insert_ne.
Qed.

(** The loop over the segments assigns the pairs of the segments, in
    order, and adds their words to the vocabulary. *)
Lemma load_segments_spec (rest : list string) word_counts vocabulary :
  for_each load_segment rest (word_counts, vocabulary)
  = (pairs ← parse_segments rest;
     Ok (assign_all word_counts pairs, list_to_set pairs.*1 ∪ vocabulary)).
Proof.
  revert word_counts vocabulary.
  induction rest as [|seg rest IH]; intros wc v.
  - simpl. do 2 f_equal. set_solver.
  - cbn [for_each parse_segments]. rewrite load_segment_first_colon.
    destruct (parse_segment_first_colon seg) as [[w n]|e]; [|done].
    rewrite !bind_Ok. rewrite IH.
    destruct (parse_segments rest) as [pairs|e]; [|done].
    rewrite !bind_Ok. do 2 f_equal. csimpl. set_solver.
Qed.

Lemma load_line_spec documents vocabulary line :
  load_line (documents, vocabulary) line
  = (d ← parse_line line;
     Ok (match d with
         | None => (documents, vocabulary)
         | Some d => (documents ++ [d], dom d.1 ∪ vocabulary)
         end)).
Proof.
  unfold load_line, parse_line.
  destruct (Py.split (Py.strip line)) as [|label rest]; [done|].
  rewrite load_segments_spec.
  destruct (parse_segments rest) as [pairs|e]; [|done].
  rewrite !bind_Ok. simpl. do 2 f_equal. rewrite assign_all_dom. set_solver.
Qed.

(** Loading from a state: the documents and words read are appended to
    those of the state. *)
Lemma load_from (lines : list string) documents vocabulary :
  for_each load_line lines (documents, vocabulary)
  = ('(documents', vocabulary') ← load_preprocessed_data lines;
     Ok (documents ++ documents', vocabulary ∪ vocabulary')).
Proof.
  unfold load_preprocessed_data. revert documents vocabulary.
  induction lines as [|line lines IH]; intros docs v.
  - simpl. rewrite app_nil_r. do 2 f_equal. set_solver.
  - cbn [for_each]. rewrite !load_line_spec.
    destruct (parse_line line) as [[d|]|e]; [| |done]; rewrite !bind_Ok.
    + rewrite (IH (docs ++ [d])), (IH ([] ++ [d])).
      destruct (for_each load_line lines ([], ∅)) as [[docs' v']|e]; [|done].
      rewrite !bind_Ok. simpl. rewrite <- app_assoc. do 2 f_equal. set_solver.
    + by rewrite IH.
Qed.

(** ** When training returns, and what it raises *)

Section for_each_raise_in.
Context {A S : Type} (body : S → A → res S).

(** A loop raises only what its body raises on an item of the list. *)
Lemma for_each_Raise_inv_in (P : exn → Prop) (l : list A) (s : S) (e : exn) :
  (∀ s x e, x ∈ l → body s x = Raise e → P e) →
  for_each body l s = Raise e → P e.
Proof.
  revert s. induction l as [|x l IH]; intros s Hbody; simpl; [done|].
  destruct (body s x) as [s'|e'] eqn:Hx; simpl.
  - apply IH. intros s0 y e0 Hy. apply Hbody. by right.
  - intros [= <-]. eapply Hbody; [left | done].
Qed.
End for_each_raise_in.

(** The smoothed estimate is determined by the quantities of the
    specification. *)
Lemma smoothed_determined (documents : list document) c words w :
  class_words documents c words →
  smoothed words (vocabulary_of documents) w
  = (inject_Z (word_count_in_class documents c w + 1)
     / inject_Z (total_in_class documents c
                 + Z.of_nat (size (vocabulary_of documents))))%Q.
Proof.
  intros Hcw. unfold smoothed.
  destruct (smoothed_class_words _ _ _ (vocabulary_of documents) w Hcw)
    as [-> ->]. done.
Qed.

(** Training returns as soon as the three loops that can raise do not. *)
Lemma train_total_gen (documents : list document) classes :
  labels_in documents classes →
  (∀ c, c ∈ classes → 0 < count_label documents c) →
  (∀ bigdoc, bigdoc_of classes documents bigdoc →
     estimable bigdoc (vocabulary_of documents) classes) →
  ∃ logprior loglikelihood,
    train_naive_bayes documents classes
    = Ok (vocabulary_of documents, logprior, loglikelihood).
Proof.
  intros Hlabels Hpos Hest. unfold train_naive_bayes.
  destruct (count_classes_ok documents classes Hlabels) as (cc & -> & Hcc).
  rewrite bind_Ok.
  destruct (class_priors_ok cc (Z.of_nat (length documents)) classes
              (count_label documents)) as (lp & -> & Hlp).
  { intros c Hc. rewrite Hcc, decide_True by done. auto. }
  { destruct classes as [|c classes]; [done|]. intros _.
    assert (0 < count_label documents c) as Hc by (apply Hpos; left).
    unfold count_label in Hc.
    pose proof (length_filter (λ d : document, d.2 = c) documents).
    unfold of_class in Hc. lia. }
  rewrite bind_Ok.
  destruct (build_bigdoc_ok documents classes Hlabels) as (bigdoc & -> & Hbd).
  rewrite bind_Ok.
  destruct (word_likelihoods_ok bigdoc (vocabulary_of documents) classes)
    as (ll & -> & Hll).
  { intros c Hc. specialize (Hbd c). rewrite decide_True in Hbd by done.
    destruct Hbd as (words & -> & _). done. }
  { by apply Hest. }
  rewrite bind_Ok. eauto.
Qed.

(** A class without documents makes the prior loop raise [ValueError]. *)
Lemma class_priors_empty_class class_counts N_doc classes
    (count : string → Z) c :
  (∀ c', c' ∈ classes → class_counts !! c' = Some (count c')) →
  0 < N_doc → c ∈ classes → count c = 0 →
  class_priors class_counts N_doc classes = Raise ValueError.
Proof.
  intros Hcounts HN Hc Hzero. unfold class_priors.
  destruct (for_each_raises (prior_step class_counts N_doc) classes c ∅ Hc)
    as [e He].
  { intros lp. unfold prior_step, Py.getitem.
    rewrite (Hcounts c Hc), Hzero, bind_Ok, true_div_ok, bind_Ok by lia.
    unfold Py.log. destruct (Qlt_le_dec _ _) as [Hlt|_]; [|by eexists].
    exfalso. revert Hlt. unfold Qlt, Qdiv, Qmult. simpl. lia. }
  rewrite He. f_equal. revert He.
  apply (for_each_Raise_inv_in _ (λ e, e = ValueError)).
  intros lp c' e' Hc'. unfold prior_step, Py.getitem.
  rewrite (Hcounts c' Hc'), bind_Ok, true_div_ok, bind_Ok by lia.
  destruct (Py.log _) as [x|e''] eqn:Hlog; [done|].
  intros [= <-]. unfold Py.log in Hlog.
  destruct (Qlt_le_dec _ _); congruence.
Qed.

(** ** The order of the documents and of the classes *)

Lemma of_class_perm c (l1 l2 : list document) :
  l1 ≡ₚ l2 → of_class c l1 ≡ₚ of_class c l2.
Proof. intros Hperm. unfold of_class. by rewrite Hperm. Qed.

Lemma count_label_perm (l1 l2 : list document) c :
  l1 ≡ₚ l2 → count_label l1 c = count_label l2 c.
Proof.
  intros Hperm. unfold count_label.
  by rewrite (Permutation_length (of_class_perm c _ _ Hperm)).
Qed.

Lemma word_count_in_class_perm (l1 l2 : list document) c w :
  l1 ≡ₚ l2 → word_count_in_class l1 c w = word_count_in_class l2 c w.
Proof.
  intros Hperm. unfold word_count_in_class. apply sumZ_perm.
  apply fmap_Permutation. by apply of_class_perm.
Qed.

Lemma total_in_class_perm (l1 l2 : list document) c :
  l1 ≡ₚ l2 → total_in_class l1 c = total_in_class l2 c.
Proof.
  intros Hperm. unfold total_in_class. apply sumZ_perm.
  apply fmap_Permutation. by apply of_class_perm.
Qed.

Lemma vocabulary_of_perm (l1 l2 : list document) :
  l1 ≡ₚ l2 → vocabulary_of l1 = vocabulary_of l2.
Proof.
  intros Hperm. apply set_eq. intros w. rewrite !elem_of_vocabulary_of.
  split; intros (d & Hd & Hw); exists d; (split; [|done]).
  - by rewrite <- Hperm.
  - by rewrite Hperm.
Qed.

(** The model of a returning run in the quantities of the
    specification. *)
Lemma train_returns_spec (documents : list document) classes V logprior
    loglikelihood :
  train_naive_bayes documents classes = Ok (V, logprior, loglikelihood) →
  let N_doc := Z.of_nat (length documents) in
  let ratio c w :=
    (inject_Z (word_count_in_class documents c w + 1)
     / inject_Z (total_in_class documents c + Z.of_nat (size V)))%Q in
  labels_in documents classes
  ∧ V = vocabulary_of documents
  ∧ (∀ c, c ∈ classes → 0 < count_label documents c)
  ∧ (∀ c w, c ∈ classes → w ∈ V →
       total_in_class documents c + Z.of_nat (size V) ≠ 0
       ∧ (0 < ratio c w)%Q)
  ∧ (∀ c, logprior !! c
          = if decide (c ∈ classes)
            then Some (ln (IZR (count_label documents c) / IZR N_doc))
            else None)
  ∧ (∀ w c, loglikelihood !! (w, c)
            = if decide (c ∈ classes ∧ w ∈ V)
              then Some (ln (Q2R (ratio c w)))
              else None).
Proof.
  intros Hrun N_doc ratio.
  destruct (train_returns _ _ _ _ _ Hrun)
    as (Hlabels & -> & Hpos & _ & Hlp & bigdoc & Hbd & Hest & Hll).
  split_and!; try done.
  - intros c w Hc Hw. pose proof (Hbd c) as Hbc.
    rewrite decide_True in Hbc by done. destruct Hbc as (words & Hwords & Hcw).
    destruct (Hest c words w Hc Hwords Hw) as [HT Hq].
    rewrite (smoothed_determined _ _ _ w Hcw) in Hq.
    destruct (smoothed_class_words _ _ _ (vocabulary_of documents) w Hcw)
      as [_ HT']. rewrite HT' in HT. done.
  - intros w c. rewrite Hll. case_decide as Hcw; [|done].
    destruct Hcw as [Hc Hw]. pose proof (Hbd c) as Hbc.
    rewrite decide_True in Hbc by done. destruct Hbc as (words & -> & Hcw).
    simpl. by rewrite (smoothed_determined _ _ _ w Hcw).
Qed.

(** Conversely, these conditions make training return. *)
Lemma train_total_spec (documents : list document) classes :
  labels_in documents classes →
  (∀ c, c ∈ classes → 0 < count_label documents c) →
  (∀ c w, c ∈ classes → w ∈ vocabulary_of documents →
     total_in_class documents c + Z.of_nat (size (vocabulary_of documents)) ≠ 0
     ∧ (0 < inject_Z (word_count_in_class documents c w + 1)
            / inject_Z (total_in_class documents c
                        + Z.of_nat (size (vocabulary_of documents))))%Q) →
  ∃ logprior loglikelihood,
    train_naive_bayes documents classes
    = Ok (vocabulary_of documents, logprior, loglikelihood).
Proof.
  intros Hlabels Hpos Hest. apply train_total_gen; try done.
  intros bigdoc Hbd c words w Hc Hwords Hw. specialize (Hbd c).
  rewrite decide_True in Hbd by done. destruct Hbd as (words' & ? & Hcw).
  simplify_eq. rewrite (smoothed_determined _ _ _ w Hcw).
  destruct (smoothed_class_words _ _ _ (vocabulary_of documents) w Hcw)
    as [_ ->]. by apply Hest.
Qed.

Lemma count_label_pos_inv (documents : list document) c :
  0 < count_label documents c → ∃ d, d ∈ documents ∧ d.2 = c.
Proof.
  unfold count_label. destruct (of_class c documents) as [|d l] eqn:Hl.
  - simpl. lia.
  - intros _. exists d.
    assert (d ∈ of_class c documents) as Hd by (rewrite Hl; left).
    apply list_elem_of_filter in Hd as [? ?]. done.
Qed.

Lemma count_label_le_length (documents : list document) c :
  count_label documents c ≤ Z.of_nat (length documents).
Proof.
  unfold count_label, of_class.
  pose proof (length_filter (λ d : document, d.2 = c) documents). lia.
Qed.

(** A non-negative count is at most the total of its document. *)
Lemma get_le_sum_values (word_counts : gmap string Z) (w : string) :
  (∀ w' n, word_counts !! w' = Some n → 0 ≤ n) →
  Py.get word_counts w 0 ≤ sumZ (Py.values word_counts).
Proof.
  intros Hnn.
  assert (0 ≤ sumZ (Py.values word_counts)) as Hsum.
  { apply sumZ_nonneg. intros n Hn. unfold Py.values in Hn.
    apply list_elem_of_fmap in Hn as ([w' n'] & -> & Hwn).
    apply elem_of_map_to_list in Hwn. by eapply Hnn. }
  unfold Py.get. destruct (word_counts !! w) as [n|] eqn:Hw; simpl; [|done].
  pose proof (values_insert (delete w word_counts) w n) as Hins.
  rewrite insert_delete_id in Hins by done.
  unfold Py.get in Hins. rewrite lookup_delete_eq in Hins. simpl in Hins.
  assert (0 ≤ sumZ (Py.values (delete w word_counts))); [|lia].
  apply sumZ_nonneg. intros m Hm. unfold Py.values in Hm.
  apply list_elem_of_fmap in Hm as ([w' n'] & -> & Hwn).
  apply elem_of_map_to_list in Hwn.
  apply lookup_delete_Some in Hwn as [_ Hwn]. by eapply Hnn.
Qed.

Lemma sumZ_map_le {A : Type} (f g : A → Z) (l : list A) :
  (∀ x, x ∈ l → f x ≤ g x) → sumZ (map f l) ≤ sumZ (map g l).
Proof.
  induction l as [|x l IH]; intros Hfg; simpl; [lia|].
  assert (f x ≤ g x) by (apply Hfg; left).
  assert (sumZ (map f l) ≤ sumZ (map g l)); [|lia].
  apply IH. intros y Hy. apply Hfg. by right.
Qed.

(** With non-negative counts, a word occurs in a class at most as often
    as all words together. *)
Lemma word_count_le_total (documents : list document) c w :
  nonneg_counts documents →
  word_count_in_class documents c w ≤ total_in_class documents c.
Proof.
  intros Hnn. unfold word_count_in_class, total_in_class.
  apply sumZ_map_le. intros [wc label] Hd.
  apply list_elem_of_filter in Hd as [_ Hd]. simpl.
  apply get_le_sum_values. intros w' n Hw'. by eapply Hnn.
Qed.

Lemma ln_nonpos (x : R) : (0 < x)%R → (x <= 1)%R → (ln x <= 0)%R.
Proof.
  intros Hpos [Hlt|Heq].
  - left. rewrite <- ln_1. by apply ln_increasing.
  - rewrite Heq, ln_1. lra.
Qed.

Lemma Rdiv_le_one (a b : R) : (0 < b)%R → (a <= b)%R → (a / b <= 1)%R.
Proof.
  intros Hb Hab. apply (Rmult_le_reg_r b); [done|].
  unfold Rdiv. rewrite Rmult_assoc, Rinv_l, Rmult_1_r, Rmult_1_l by lra.
  done.
Qed.

(** ** The scores of the classifier *)

Lemma sumR_app (l1 l2 : list R) : sumR (l1 ++ l2) = (sumR l1 + sumR l2)%R.
Proof. induction l1 as [|x l1 IH]; simpl; [lra | rewrite IH; lra]. Qed.

Lemma sumR_perm (l1 l2 : list R) : l1 ≡ₚ l2 → sumR l1 = sumR l2.
Proof. induction 1; simpl; lra. Qed.

Lemma ODict_getitem_middle {V : Type} (pre post : ODict.t V) k (v : V) :
  k ∉ pre.*1 → ODict.getitem (pre ++ (k, v) :: post) k = Ok v.
Proof.
  induction pre as [|[k' v'] pre IH]; intros Hk; simpl.
  - by rewrite decide_True.
  - rewrite fmap_cons, not_elem_of_cons in Hk. destruct Hk as [Hne Hk].
    rewrite decide_False by done. by apply IH.
Qed.

Lemma ODict_set_middle {V : Type} (pre post : ODict.t V) k (v v' : V) :
  k ∉ pre.*1 →
  ODict.set k v' (pre ++ (k, v) :: post) = pre ++ (k, v') :: post.
Proof.
  induction pre as [|[k0 v0] pre IH]; intros Hk; simpl.
  - by rewrite decide_True.
  - rewrite fmap_cons, not_elem_of_cons in Hk. destruct Hk as [Hne Hk].
    rewrite decide_False by done. by rewrite IH.
Qed.

Lemma add_score_middle loglikelihood w n (pre post : list (string * R)) c s :
  c ∉ pre.*1 →
  add_score loglikelihood w n (pre ++ (c, s) :: post) c
  = Ok (pre ++ (c, (s + IZR n * Py.get loglikelihood (w, c) 0)%R) :: post).
Proof.
  intros Hfresh. unfold add_score.
  by rewrite ODict_getitem_middle, bind_Ok, ODict_set_middle.
Qed.

(** The loop of lines 86-89 adds the contribution of the word to the
    score of each class, in place. *)
Lemma add_score_loop loglikelihood w n (l : list string)
    (pre scores : list (string * R)) :
  scores.*1 = l → NoDup (pre.*1 ++ l) →
  for_each (add_score loglikelihood w n) l (pre ++ scores)
  = Ok (pre ++ map (λ cs, (cs.1, (cs.2 + IZR n
                                    * Py.get loglikelihood (w, cs.1) 0)%R))
                 scores).
Proof.
  revert pre scores. induction l as [|c l IH]; intros pre scores Hkeys Hnd.
  - apply fmap_nil_inv in Hkeys as ->. done.
  - destruct scores as [|[c' s] scores]; [done|]. injection Hkeys as -> Hkeys.
    assert (c ∉ pre.*1) as Hfresh.
    { apply NoDup_app in Hnd as (_ & Hdisj & _). intros Hin.
      apply (Hdisj c Hin). left. }
    cbn [for_each]. rewrite add_score_middle, bind_Ok by done.
    rewrite (cons_middle _ pre scores), app_assoc.
    rewrite IH; [by rewrite <- app_assoc| done |].
    rewrite fmap_app. simpl. rewrite <- app_assoc. done.
Qed.

(** The scores when [max] is called. *)
Lemma class_scores_spec word_counts V logprior loglikelihood
    (classes : list string) :
  NoDup classes → (∀ c, c ∈ classes → is_Some (logprior !! c)) →
  class_scores word_counts V logprior loglikelihood classes
  = Ok (map (λ c, (c, score word_counts V logprior loglikelihood c)) classes).
Proof.
  intros Hnd Hlp. unfold class_scores. rewrite initial_scores_ok by done.
  rewrite bind_Ok. unfold accumulate_scores, score.
  destruct (for_each_inv
              (λ scores '(word, count),
                 if decide (word ∈ V)
                 then for_each (add_score loglikelihood word count)
                        classes scores
                 else Ok scores)
              (λ done scores,
                 scores
                 = map (λ c, (c, (Py.get logprior c 0
                                  + sumR (map (contribution V loglikelihood c)
                                            done))%R)) classes)
              (Py.items word_counts)
              (map (λ c, (c, Py.get logprior c 0%R)) classes))
    as (scores & -> & ->); [| |done].
  - apply map_ext. intros c. simpl. f_equal. lra.
  - intros done [w n] rest scores _ ->. case_decide as Hw.
    + pose proof (add_score_loop loglikelihood w n classes []
                    (map (λ c, (c, (Py.get logprior c 0
                                    + sumR (map (contribution V loglikelihood c)
                                              done))%R)) classes)) as Hloop.
      simpl in Hloop. rewrite Hloop; [| |done].
      * eexists. split; [done|]. rewrite map_map. apply map_ext.
        intros c. simpl. f_equal. rewrite map_app, sumR_app. simpl.
        unfold contribution at 3. simpl. rewrite decide_True by done. lra.
      * rewrite <- list_fmap_compose. apply list_fmap_id.
    + eexists. split; [done|]. apply map_ext. intros c. f_equal.
      rewrite map_app, sumR_app. simpl. unfold contribution at 3. simpl.
      rewrite decide_False by done. lra.
Qed.

(** The words outside the vocabulary contribute nothing. *)
Lemma score_filter word_counts V logprior loglikelihood c :
  score (filter (λ item, item.1 ∈ V) word_counts) V logprior loglikelihood c
  = score word_counts V logprior loglikelihood c.
Proof.
  unfold score. f_equal. unfold Py.items.
  induction word_counts as [|w n word_counts Hw IH] using map_ind.
  - by rewrite map_filter_empty.
  - rewrite (sumR_perm _ _ (fmap_Permutation _ _ _
                              (map_to_list_insert _ _ _ Hw))).
    simpl. destruct (decide (w ∈ V)) as [HV|HV].
    + rewrite map_filter_insert_True by done.
      assert (filter (λ item : string * Z, item.1 ∈ V) word_counts !! w = None)
        as Hfw by (apply map_lookup_filter_None; by left).
      rewrite (sumR_perm _ _
                 (fmap_Permutation _ _ _ (map_to_list_insert _ w n Hfw))).
      simpl. f_equal. exact IH.
    + rewrite map_filter_insert_False, delete_id by done.
      assert (contribution V loglikelihood c (w, n) = 0%R) as Hzero
        by (unfold contribution; simpl; by rewrite decide_False).
      rewrite IH. simpl. rewrite Hzero, Rplus_0_l. reflexivity.
Qed.

(** The first class without a prior stops the initialisation of the
    scores. *)
Lemma initial_scores_missing (logprior : gmap string R)
    (pre post : list string) (c : string) :
  (∀ c', c' ∈ pre → is_Some (logprior !! c')) → logprior !! c = None →
  initial_scores logprior (pre ++ c :: post) = Raise (KeyError c).
Proof.
  intros Hpre Hc. unfold initial_scores. rewrite for_each_app.
  destruct (for_each_inv
              (λ scores c, p ← Py.getitem logprior c;
                           Ok (ODict.set c p scores))
              (λ _ _, True) pre []) as (scores & -> & _); [done| |].
  - intros done c' rest s Heq _. destruct (Hpre c') as [p Hp].
    { rewrite Heq, elem_of_app. right. left. }
    unfold Py.getitem. rewrite Hp. by eexists.
  - rewrite bind_Ok. cbn [for_each]. unfold Py.getitem. by rewrite Hc.
Qed.

(** A class list either has all its priors or splits at the first class
    without one. *)
Lemma priors_defined_dec (logprior : gmap string R) (classes : list string) :
  (∀ c, c ∈ classes → is_Some (logprior !! c))
  ∨ ∃ pre c post,
      classes = pre ++ c :: post
      ∧ (∀ c', c' ∈ pre → is_Some (logprior !! c'))
      ∧ logprior !! c = None.
Proof.
  induction classes as [|c classes IH].
  - left. intros c Hc. by apply elem_of_nil in Hc.
  - destruct (logprior !! c) as [p|] eqn:Hc.
    + destruct IH as [Hall|(pre & c' & post & -> & Hpre & Hnone)].
      * left. intros c' [->|Hc']%elem_of_cons; [by eexists | by apply Hall].
      * right. exists (c :: pre), c', post. split_and!; [done| |done].
        intros c'' [->|Hc'']%elem_of_cons; [by eexists | by apply Hpre].
    + right. exists [], c, classes. split_and!; [done| |done].
      intros c' Hc'. by apply elem_of_nil in Hc'.
Qed.

(** ** The driver at the edges *)

Lemma load_blank_lines (lines : list string) :
  Forall (λ line, Py.split (Py.strip line) = []) lines →
  load_preprocessed_data lines = Ok ([], ∅).
Proof.
  intros Hblank. unfold load_preprocessed_data. apply for_each_skip.
  intros line Hline. apply (proj1 (Forall_forall _ _) Hblank) in Hline.
  unfold load_line. by rewrite Hline.
Qed.

Lemma format_2f_all (p : positive) :
  format_2f (inject_Z (Z.pos p) / inject_Z (Z.pos p) * 100)%Q = "100.00".
Proof.
  unfold format_2f.
  assert (round_half_even
            (Qabs (inject_Z (Z.pos p) / inject_Z (Z.pos p) * 100) * 100)%Q
          = 10000) as ->.
  { unfold round_half_even. simpl.
    replace (Z.abs (Z.pos p * 1 * 100) * 100)
      with (10000 * Z.pos (1 * p * 1 * 1)) by lia.
    rewrite Z.div_mul, Z.mod_mul by lia. simpl. done. }
  destruct (Qlt_le_dec _ _) as [Hneg|_]; [|vm_compute; reflexivity].
  exfalso. revert Hneg. unfold Qlt. simpl. lia.
Qed.

Lemma format_2f_none (p : positive) :
  format_2f (inject_Z 0 / inject_Z (Z.pos p) * 100)%Q = "0.00".
Proof.
  unfold format_2f.
  assert (round_half_even
            (Qabs (inject_Z 0 / inject_Z (Z.pos p) * 100) * 100)%Q = 0) as ->.
  { unfold round_half_even. simpl. done. }
  destruct (Qlt_le_dec _ _) as [Hneg|_]; [|vm_compute; reflexivity].
  exfalso. revert Hneg. unfold Qlt. simpl. lia.
Qed.

Lemma count_correct_bounds (predictions : list string)
    (test_docs : list document) :
  length predictions = length test_docs →
  0 ≤ count_correct predictions test_docs ≤ Z.of_nat (length test_docs).
Proof.
  revert test_docs. unfold count_correct.
  induction predictions as [|p predictions IH]; intros [|d test_docs] Hlen;
    try done.
  simpl in Hlen. injection Hlen as Hlen. specialize (IH test_docs Hlen).
  simpl length. simpl zip_with. simpl sumZ. case_decide; lia.
Qed.

(** All predictions are correct exactly when the count is the total. *)
Lemma count_correct_all (predictions : list string)
    (test_docs : list document) :
  length predictions = length test_docs →
  count_correct predictions test_docs = Z.of_nat (length test_docs)
  ↔ predictions = test_docs.*2.
Proof.
  revert test_docs.
  induction predictions as [|p predictions IH]; intros [|d test_docs] Hlen;
    try done.
  simpl in Hlen. injection Hlen as Hlen.
  pose proof (count_correct_bounds predictions test_docs Hlen) as Hb.
  specialize (IH test_docs Hlen). unfold count_correct in *. csimpl.
  case_decide as Hp.
  - rewrite <- Hp. split.
    + intros Hc. f_equal. apply IH. lia.
    + intros [= Heq]. apply IH in Heq. lia.
  - split; [lia|]. by intros [= ? ?].
Qed.

Lemma count_correct_none (predictions : list string)
    (test_docs : list document) :
  length predictions = length test_docs →
  count_correct predictions test_docs = 0
  ↔ Forall2 (λ p (d : document), p ≠ d.2) predictions test_docs.
Proof.
  revert test_docs.
  induction predictions as [|p predictions IH]; intros [|d test_docs] Hlen;
    try done.
  simpl in Hlen. injection Hlen as Hlen.
  pose proof (count_correct_bounds predictions test_docs Hlen) as Hb.
  specialize (IH test_docs Hlen). unfold count_correct in *. csimpl.
  case_decide as Hp.
  - split; [lia|]. intros H. by inversion H.
  - rewrite Z.add_0_l, IH. split.
    + intros ?. by constructor.
    + intros H. by inversion H.
Qed.

(** ** Doubles: what division and logarithm return *)

Lemma iter_pos_inv {A : Type} (P : A → Prop) (f : A → A) :
  (∀ x, P x → P (f x)) → ∀ p x, P x → P (SpecFloat.iter_pos f p x).
Proof.
  intros Hf. induction p as [p IH|p IH|]; intros x Hx; simpl; auto.
Qed.

Lemma shr_1_nonneg (mrs : shr_record) : 0 ≤ shr_m mrs → 0 ≤ shr_m (shr_1 mrs).
Proof.
  destruct mrs as [m r s]. simpl. intros Hm.
  destruct m as [|[p|p|]|p]; simpl; lia.
Qed.

Lemma shr_fexp_nonneg (m e : Z) (l : location) :
  0 ≤ m → 0 ≤ shr_m (shr_fexp Float.prec Float.emax m e l).1.
Proof.
  intros Hm. unfold shr_fexp, shr.
  assert (0 ≤ shr_m (shr_record_of_loc m l)) as Hrec
    by (by destruct l as [|[]]).
  destruct (fexp _ _ _ - e) as [|p|p]; simpl; try done.
  by apply (iter_pos_inv (λ mrs, 0 ≤ shr_m mrs)), Hrec; apply shr_1_nonneg.
Qed.

Lemma round_nearest_even_nonneg (m : Z) (l : location) :
  0 ≤ m → 0 ≤ round_nearest_even m l.
Proof.
  intros Hm. unfold round_nearest_even.
  destruct l as [|[]]; try lia. destruct (Z.even m); lia.
Qed.

(** Rounding a non-negative mantissa gives a zero, a finite double or an
    infinity of the requested sign, never a NaN. *)
Lemma binary_round_aux_cases (sx : bool) (mx ex : Z) (lx : location) :
  0 ≤ mx →
  let r := binary_round_aux Float.prec Float.emax sx mx ex lx in
  r = S754_zero sx ∨ (∃ m e, r = S754_finite sx m e) ∨ r = S754_infinity sx.
Proof.
  intros Hmx. unfold binary_round_aux.
  pose proof (shr_fexp_nonneg mx ex lx Hmx) as H1.
  destruct (shr_fexp Float.prec Float.emax mx ex lx) as [mrs' e'].
  simpl in H1.
  pose proof (shr_fexp_nonneg
                (round_nearest_even (shr_m mrs') (loc_of_shr_record mrs'))
                e' loc_Exact
                (round_nearest_even_nonneg _ _ H1)) as H2.
  destruct (shr_fexp Float.prec Float.emax _ e' loc_Exact) as [mrs'' e''].
  simpl in H2. destruct (shr_m mrs'') as [|m|m]; [by left| |lia].
  destruct (e'' <=? _); [right; left; eauto | by right; right].
Qed.

Lemma div_core_nonneg (a b : Z) :
  0 ≤ a → 0 < b →
  0 ≤ (SFdiv_core_binary Float.prec Float.emax a 0 b 0).1.1.
Proof.
  intros Ha Hb. unfold SFdiv_core_binary.
  set (s := _ - _ - _).
  set (m' := match s with Z.pos _ => Z.shiftl a s | 0 => a | Z.neg _ => 0 end).
  assert (0 ≤ m') as Hm'.
  { unfold m'. destruct s; [done | by apply Z.shiftl_nonneg | done]. }
  pose proof (Z_div_mod m' b ltac:(lia)) as Hdiv.
  destruct (Z.div_eucl m' b) as [q r]. simpl. nia.
Qed.

(** What a returning division has computed. *)
Lemma true_div_Ok_inv (a b : Z) (x : spec_float) :
  Float.true_div a b = Ok x →
  b ≠ 0 ∧ Float.is_finite x = true
  ∧ (Float.is_positive x = true → 0 < a * b).
Proof.
  unfold Float.true_div. case_decide as Hb; [done|].
  destruct (decide (a = 0)) as [->|Ha].
  { intros [= <-]. done. }
  pose proof (div_core_nonneg (Z.abs a) (Z.abs b) ltac:(lia) ltac:(lia)) as Hq.
  destruct (SFdiv_core_binary _ _ _ _ _ _) as [[q e] l]. simpl in Hq.
  pose proof (binary_round_aux_cases
                (xorb (a <? 0) (b <? 0)) q e l Hq) as Hr.
  simpl in Hr. destruct a as [|a|a]; [done| |];
    destruct Hr as [Hr|[(m & e' & Hr)|Hr]]; rewrite Hr;
    intros Hx; try discriminate Hx; injection Hx as <-;
    (split; [done|]); (split; [done|]); simpl; try done;
    destruct b as [|b|b]; simpl; try done; lia.
Qed.

Lemma true_div_raises (a b : Z) (e : exn) :
  Float.true_div a b = Raise e → e = ZeroDivisionError ∨ e = OverflowError.
Proof.
  unfold Float.true_div. case_decide; [intros [= <-]; by left|].
  destruct a; [done| |];
    destruct (SFdiv_core_binary _ _ _ _ _ _) as [[q e'] l];
    destruct (binary_round_aux _ _ _ _ _ _); intros [= <-]; by right.
Qed.

(** On a finite argument, a returning logarithm had a strictly positive
    argument and returns the finite value of the library. *)
Lemma log_Ok_inv (libm_log : spec_float → spec_float) (x y : spec_float) :
  Float.is_finite x = true → Float.log libm_log x = Ok y →
  Float.is_positive x = true ∧ Float.is_finite y = true ∧ y = libm_log x.
Proof.
  unfold Float.log. destruct x as [s|s| |s m e]; try done.
  destruct s; [done|]. intros _.
  destruct (Float.is_finite (libm_log _)) eqn:Hfin; [|done].
  by intros [= <-].
Qed.

Lemma log_raises (libm_log : spec_float → spec_float) (x : spec_float)
    (e : exn) :
  Float.log libm_log x = Raise e → e = ValueError.
Proof.
  unfold Float.log. destruct x as [s|[]| |[] m e']; try congruence.
  destruct (Float.is_finite _); congruence.
Qed.

(** A zero has no logarithm. *)
Lemma log_zero (libm_log : spec_float → spec_float) (s : bool) :
  Float.log libm_log (S754_zero s) = Raise ValueError.
Proof. done. Qed.

(** * The claims *)








(** C8, as amended.  Training validates nothing explicitly, but line 46
    looks the label up in a plain dictionary: when some document has a
    label outside the class set, counting stops at the first such document
    with [KeyError] for its label, training raises that error and returns
    no model, and line 61 likewise raises on a label that has no bucket
    instead of creating one. *)
Theorem unknown_label_raises (documents : list document)
    (classes : list string) :
  ¬ labels_in documents classes →
  ∃ pre word_counts label post,
    documents = pre ++ (word_counts, label) :: post
    ∧ labels_in pre classes ∧ (label ∉ classes)
    ∧ count_classes documents classes = Raise (KeyError label)
    ∧ train_naive_bayes documents classes = Raise (KeyError label)
    ∧ ∀ (bigdoc : gmap string (gmap string Z)) item,
        bigdoc !! label = None →
        bigdoc_add label bigdoc item = Raise (KeyError label).
Proof.
  intros Hnot.
  destruct (labels_in_dec documents classes)
    as [?|(pre & wc & label & post & Heq & Hpre & Hlabel)]; [done|].
  exists pre, wc, label, post.
  assert (count_classes documents classes = Raise (KeyError label)) as Hcount.
  { rewrite Heq. by apply count_classes_unknown. }
  split_and!; try done.
  - unfold train_naive_bayes. by rewrite Hcount.
  - intros bigdoc [w n] Hnone. unfold bigdoc_add, Py.getitem.
    by rewrite Hnone.
Qed.

Lemma unknown_label_raises_neutral :
  ¬ labels_in neutral_docs ["pos"; "neg"]
  ∧ train_naive_bayes neutral_docs ["pos"; "neg"]
    = Raise (KeyError "neutral").
Proof.
  assert (¬ labels_in neutral_docs ["pos"; "neg"]) as Hnot.
  { intros H. specialize (H _ (list_elem_of_here _ _)). revert H.
    by_evaluation. }
  split; [exact Hnot|].
  destruct (unknown_label_raises neutral_docs ["pos"; "neg"] Hnot)
    as (pre & wc & label & post & Heq & _ & _ & _ & Htrain & _).
  destruct pre as [|d pre]; [|destruct pre; discriminate Heq].
  injection Heq as _ <-. exact Htrain.
Defined.

(** C8, as stated, fails: the document of [neutral_docs] has a label
    outside the class set, and training raises [KeyError] instead of
    accumulating its counts; so does the loop that fills [bigdoc]. *)
Lemma unknown_label_not_accumulated :
  (∃ d, d ∈ neutral_docs ∧ d.2 ∉ ["pos"; "neg"])
  ∧ train_naive_bayes neutral_docs ["pos"; "neg"]
    = Raise (KeyError "neutral")
  ∧ (¬ ∃ m, train_naive_bayes neutral_docs ["pos"; "neg"] = Ok m)
  ∧ build_bigdoc neutral_docs ["pos"; "neg"] = Raise (KeyError "neutral").
Proof.
  assert (train_naive_bayes neutral_docs ["pos"; "neg"]
          = Raise (KeyError "neutral")) as Hrun by (vm_compute; reflexivity).
  split_and!.
  - eexists. split; [left|]. by_evaluation.
  - exact Hrun.
  - intros [m Hm]. by rewrite Hrun in Hm.
  - vm_compute. reflexivity.
Qed.

(** C5.  When no word of the document belongs to [V], the score of each
    class is its log prior, and the classifier returns the class with the
    highest log prior: no class has a higher one, and every class met
    earlier in the iteration order of the class set has a strictly lower
    one. *)
Theorem unknown_words_invariance (word_counts : gmap string Z)
    (V : gset string) (logprior : gmap string R)
    (loglikelihood : gmap (string * string) R) (classes : list string) :
  NoDup classes → classes ≠ [] →
  (∀ c, c ∈ classes → is_Some (logprior !! c)) →
  (∀ w, w ∈ dom word_counts → w ∉ V) →
  class_scores word_counts V logprior loglikelihood classes
  = Ok (map (λ c, (c, Py.get logprior c 0%R)) classes)
  ∧ ∃ r i,
      test_naive_bayes word_counts V logprior loglikelihood classes = Ok r
      ∧ classes !! i = Some r
      ∧ (∀ c, c ∈ classes →
           (Py.get logprior c 0 <= Py.get logprior r 0)%R)
      ∧ (∀ j c, (j < i)%nat → classes !! j = Some c →
           (Py.get logprior c 0 < Py.get logprior r 0)%R).
Proof.
  intros Hnd Hne Hlp Hunknown.
  assert (class_scores word_counts V logprior loglikelihood classes
          = Ok (map (λ c, (c, Py.get logprior c 0%R)) classes)) as Hscores.
  { unfold class_scores. rewrite initial_scores_ok by done. simpl.
    by apply accumulate_scores_unknown. }
  split; [done|]. unfold test_naive_bayes. rewrite Hscores. simpl.
  destruct (max_by_value_index (map (λ c, (c, Py.get logprior c 0%R)) classes))
    as ([r s] & i & -> & Hi & Hmax & Hfirst).
  { by destruct classes. }
  simpl. exists r, i.
  rewrite list_lookup_fmap in Hi.
  destruct (classes !! i) as [r'|] eqn:Hr; [|done].
  injection Hi as -> <-. split_and!; [done..| |].
  - intros c Hc. apply list_elem_of_lookup_1 in Hc as [j Hj].
    apply (Hmax j (c, Py.get logprior c 0%R)).
    by rewrite list_lookup_fmap, Hj.
  - intros j c Hlt Hj.
    apply (Hfirst j (c, Py.get logprior c 0%R) Hlt).
    by rewrite list_lookup_fmap, Hj.
Qed.

(** With the priors of the scenario, a document of unknown words goes to
    the class met first, the two priors being equal. *)
Lemma unknown_words_invariance_scenario :
  test_naive_bayes {["unseen" := 3]} scenario_V scenario_logprior
    scenario_loglikelihood ["neg"; "pos"] = Ok "neg".
Proof.
  assert (NoDup ["neg"; "pos"]) as Hnd by by_evaluation.
  assert (["neg"; "pos"] ≠ []) as Hne by discriminate.
  assert (∀ c, c ∈ ["neg"; "pos"] → is_Some (scenario_logprior !! c)) as Hlp.
  { intros c Hc. apply elem_of_cons in Hc as [->|Hc]; [by eexists|].
    apply list_elem_of_singleton in Hc as ->. by eexists. }
  assert (∀ w, w ∈ dom ({["unseen" := 3]} : gmap string Z) → w ∉ scenario_V)
    as Hunknown.
  { intros w Hw. rewrite dom_singleton_L in Hw.
    apply elem_of_singleton in Hw as ->. by_evaluation. }
  destruct (unknown_words_invariance {["unseen" := 3]} scenario_V
              scenario_logprior scenario_loglikelihood ["neg"; "pos"]
              Hnd Hne Hlp Hunknown)
    as (_ & r & i & Hrun & Hi & _ & Hfirst).
  rewrite Hrun. destruct i as [|[|i]]; [by injection Hi as <- | | done].
  injection Hi as <-. exfalso. apply (Rlt_irrefl (ln (1 / 2))).
  exact (Hfirst 0%nat "neg" (le_n 1) eq_refl).
Defined.



(** C1.  Whatever the iteration order of the class set {pos, neg}: the
    two lines load as the two documents; training yields
    V = {great, movie, bad}, logprior[pos] = logprior[neg] = ln 0.5, for
    class pos the denominator (2 + 1) + 3 = 6 and the likelihoods
    ln (3/6), ln (2/6), ln (1/6) of great, movie, bad; and classifying
    {"great": 1} returns "pos", whose score is strictly higher than that
    of "neg". *)
Theorem scenario (classes : list string) :
  classes ≡ₚ ["pos"; "neg"] →
  load_preprocessed_data scenario_lines
  = Ok (scenario_docs, {["great"; "movie"; "bad"]})
  ∧ ∃ logprior loglikelihood bigdoc words scores s_pos s_neg,
      let V : gset string := {["great"; "movie"; "bad"]} in
      let doc : gmap string Z := {["great" := 1]} in
      train_naive_bayes scenario_docs classes = Ok (V, logprior, loglikelihood)
      ∧ logprior !! "pos" = Some (ln (1 / 2))
      ∧ logprior !! "neg" = Some (ln (1 / 2))
      ∧ (1 / 2 = 0.5)%R
      ∧ build_bigdoc scenario_docs classes = Ok bigdoc
      ∧ bigdoc !! "pos" = Some words
      ∧ Py.sum (Py.values words) = 2 + 1
      ∧ Z.of_nat (size V) = 3
      ∧ total_words words V = 6
      ∧ loglikelihood !! ("great", "pos") = Some (ln (3 / 6))
      ∧ loglikelihood !! ("movie", "pos") = Some (ln (2 / 6))
      ∧ loglikelihood !! ("bad", "pos") = Some (ln (1 / 6))
      ∧ class_scores doc V logprior loglikelihood classes = Ok scores
      ∧ (("pos", s_pos) ∈ scores)
      ∧ (("neg", s_neg) ∈ scores)
      ∧ (s_neg < s_pos)%R
      ∧ test_naive_bayes doc V logprior loglikelihood classes = Ok "pos".
Proof.
  intros Hperm. split; [exact scenario_loaded|].
  exists scenario_logprior, scenario_loglikelihood.
  assert (∃ bigdoc words,
            build_bigdoc scenario_docs classes = Ok bigdoc
            ∧ bigdoc !! "pos" = Some words
            ∧ Py.sum (Py.values words) = 2 + 1
            ∧ total_words words scenario_V = 6)
    as (bigdoc & words & Hbigdoc & Hwords & Hsum & Htotal).
  { destruct (pos_neg_orders classes Hperm) as [-> | ->];
      eexists _, _; split_and!; vm_compute; reflexivity. }
  exists bigdoc, words. eexists _, _, _. simpl.
  split_and!;
    [by apply scenario_trained | reflexivity | reflexivity | lra
    | exact Hbigdoc | exact Hwords | exact Hsum | reflexivity | exact Htotal
    | reflexivity | reflexivity | reflexivity
    | by apply scenario_scores | | | exact scenario_score_order
    | by apply scenario_classified ].
  - destruct (pos_neg_orders classes Hperm) as [-> | ->];
      [left | right; left].
  - destruct (pos_neg_orders classes Hperm) as [-> | ->];
      [right; left | left].
Qed.

Lemma scenario_pos_neg :
  ∃ logprior loglikelihood,
    train_naive_bayes scenario_docs ["pos"; "neg"]
    = Ok ({["great"; "movie"; "bad"]}, logprior, loglikelihood)
    ∧ test_naive_bayes {["great" := 1]} {["great"; "movie"; "bad"]}
        logprior loglikelihood ["pos"; "neg"] = Ok "pos".
Proof.
  destruct (scenario ["pos"; "neg"] (reflexivity _))
    as (_ & lp & ll & ? & ? & ? & ? & ? & Htrain & Hrest).
  exists lp, ll. split; [exact Htrain|].
  do 15 (destruct Hrest as [_ Hrest]). exact Hrest.
Defined.

(** C10.  The vocabulary returned by a successful load is the vocabulary
    that lines 48-51 compute from the returned documents, hence the [V] of
    every model trained on them. *)
Theorem loader_vocabulary_is_trainer_vocabulary (lines : list string)
    (documents : list document) (vocabulary : gset string) :
  load_preprocessed_data lines = Ok (documents, vocabulary) →
  vocabulary_of documents = vocabulary
  ∧ ∀ classes V logprior loglikelihood,
      train_naive_bayes documents classes = Ok (V, logprior, loglikelihood) →
      V = vocabulary.
Proof.
  intros Hload. apply load_Ok_inv in Hload as [-> _]. split; [done|].
  intros classes V lp ll Hrun. unfold train_naive_bayes in Hrun.
  bind_inv Hrun. by injection Hrun as <- _ _.
Qed.

Lemma loader_vocabulary_scenario :
  load_preprocessed_data scenario_lines = Ok (scenario_docs, scenario_V)
  ∧ vocabulary_of scenario_docs = scenario_V
  ∧ ∀ classes V logprior loglikelihood,
      train_naive_bayes scenario_docs classes
      = Ok (V, logprior, loglikelihood) →
      V = scenario_V.
Proof.
  assert (load_preprocessed_data scenario_lines
          = Ok (scenario_docs, scenario_V)) as Hload
    by (vm_compute; reflexivity).
  split; [exact Hload|].
  exact (loader_vocabulary_is_trainer_vocabulary _ _ _ Hload).
Defined.

(** C7, as amended.  Each segment is split at its first colon and the
    text after it is parsed by [int], which accepts a sign: a segment with
    no colon or with a count that is not an integer literal raises
    [ValueError].  A line without tokens is skipped.  The only error of a
    load is [ValueError]; a line with a malformed segment makes the whole
    load raise it, whatever the other lines are, so no partial result is
    returned.  Every count of every loaded document is the integer denoted
    by the text after the colon of one of its segments. *)
Theorem loader_contract :
  (∀ word_counts vocabulary word_count,
     load_segment (word_counts, vocabulary) word_count
     = ('(word, n) ← parse_segment_first_colon word_count;
        Ok (<[word := n]> word_counts, {[word]} ∪ vocabulary)))
  ∧ (∀ st line, Py.split (Py.strip line) = [] → load_line st line = Ok st)
  ∧ (∀ lines e, load_preprocessed_data lines = Raise e → e = ValueError)
  ∧ (∀ before line after label rest word_count,
       Py.split (Py.strip line) = label :: rest → word_count ∈ rest →
       parse_segment_first_colon word_count = Raise ValueError →
       load_preprocessed_data (before ++ line :: after) = Raise ValueError)
  ∧ (∀ lines documents vocabulary word_counts label w n,
       load_preprocessed_data lines = Ok (documents, vocabulary) →
       (word_counts, label) ∈ documents → word_counts !! w = Some n →
       ∃ line rest count,
         line ∈ lines ∧ Py.split (Py.strip line) = label :: rest
         ∧ (w +:+ ":" +:+ count) ∈ rest ∧ Py.int count = Ok n).
Proof.
  split_and!.
  - apply load_segment_first_colon.
  - intros [documents vocabulary] line Hblank. unfold load_line.
    by rewrite Hblank.
  - intros lines e. unfold load_preprocessed_data.
    apply (for_each_Raise_inv load_line (λ e, e = ValueError)).
    apply load_line_raises.
  - intros before line after label rest seg Hsplit Hin Hbad.
    unfold load_preprocessed_data. rewrite for_each_app.
    destruct (for_each load_line before ([], ∅)) as [st|e] eqn:Hbefore; simpl.
    + by rewrite (load_line_malformed st line label rest seg).
    + f_equal.
      apply (for_each_Raise_inv load_line (λ e, e = ValueError) _ _ _
               load_line_raises Hbefore).
  - intros lines documents vocabulary wc label w n Hload Hin Hw.
    apply load_Ok_inv in Hload as [_ Hcounts].
    destruct (Hcounts wc label w n Hin Hw)
      as (line & rest & seg & Hline & Hsplit & Hseg & Hparse).
    apply parse_segment_Ok_inv in Hparse as (count & -> & Hint).
    by exists line, rest, count.
Qed.

Lemma loader_contract_malformed :
  load_preprocessed_data ["pos a:1"; ""; "neg b:x c:2"] = Raise ValueError.
Proof.
  destruct loader_contract as (_ & _ & _ & Hfatal & _).
  apply (Hfatal ["pos a:1"; ""] "neg b:x c:2" [] "neg" ["b:x"; "c:2"] "b:x").
  - vm_compute. reflexivity.
  - left.
  - vm_compute. reflexivity.
Defined.

(** C7, as stated, fails: the count "-3" is accepted, and the loaded
    document has a negative count. *)
Lemma negative_count_loaded :
  load_preprocessed_data ["pos bad:-3"]
  = Ok ([({["bad" := -3]}, "pos")], {["bad"]})
  ∧ ∃ documents vocabulary word_counts label n,
      load_preprocessed_data ["pos bad:-3"] = Ok (documents, vocabulary)
      ∧ (word_counts, label) ∈ documents
      ∧ word_counts !! "bad" = Some n ∧ n < 0.
Proof.
  assert (load_preprocessed_data ["pos bad:-3"]
          = Ok ([({["bad" := -3]}, "pos")], {["bad"]})) as Hload
    by (vm_compute; reflexivity).
  split; [exact Hload|].
  eexists _, _, _, _, _. split_and!; [exact Hload | left | reflexivity | lia].
Qed.




(** * Further properties of the code *)

(** X1.  Loading is compositional: the load of two corpora one after the
    other returns the documents of the first followed by those of the
    second and the union of the two vocabularies, and raises the first
    error met. *)
Theorem load_concatenation (lines1 lines2 : list string) :
  load_preprocessed_data (lines1 ++ lines2)
  = ('(documents1, vocabulary1) ← load_preprocessed_data lines1;
     '(documents2, vocabulary2) ← load_preprocessed_data lines2;
     Ok (documents1 ++ documents2, vocabulary1 ∪ vocabulary2)).
Proof.
  unfold load_preprocessed_data at 1. rewrite for_each_app.
  fold (load_preprocessed_data lines1).
  destruct (load_preprocessed_data lines1) as [[docs1 v1]|e]; [|done].
  rewrite !bind_Ok. apply load_from.
Qed.

(** X2.  When a word occurs in several segments of a line, the document
    keeps the count of its last segment: counts of repeated words are not
    added. *)
Theorem load_line_last_count_wins (documents : list document)
    (vocabulary : gset string) (line label : string) (rest : list string)
    (before after : list (string * Z)) (w : string) (n : Z) :
  Py.split (Py.strip line) = label :: rest →
  parse_segments rest = Ok (before ++ (w, n) :: after) →
  w ∉ after.*1 →
  ∃ word_counts vocabulary',
    load_line (documents, vocabulary) line
    = Ok (documents ++ [(word_counts, label)], vocabulary')
    ∧ word_counts !! w = Some n.
Proof.
  intros Hsplit Hpairs Hlast. rewrite load_line_spec. unfold parse_line.
  rewrite Hsplit, Hpairs, !bind_Ok. eexists _, _. split; [done|]. simpl.
  rewrite assign_all_app. unfold assign_all at 1. cbn [foldl].
  rewrite assign_all_notin by done. apply lookup_insert_eq.
Qed.

Lemma load_line_last_count_wins_example :
  ∃ word_counts vocabulary',
    load_line ([], ∅) "pos a:1 b:2 a:5"
    = Ok ([(word_counts, "pos")], vocabulary')
    ∧ word_counts !! "a" = Some 5.
Proof.
  apply (load_line_last_count_wins [] ∅ "pos a:1 b:2 a:5" "pos"
           ["a:1"; "b:2"; "a:5"] [("a", 1); ("b", 2)] [] "a" 5).
  - vm_compute. reflexivity.
  - vm_compute. reflexivity.
  - apply not_elem_of_nil.
Defined.

(** X3.  With non-negative word counts, training returns a model exactly
    when every label belongs to the class set and every class labels at
    least one document. *)
Theorem train_returns_iff (documents : list document) (classes : list string) :
  nonneg_counts documents →
  (∃ m, train_naive_bayes documents classes = Ok m)
  ↔ labels_in documents classes ∧ classes_inhabited documents classes.
Proof.
  intros Hnn. split.
  - intros [[[V lp] ll] Hrun].
    destruct (train_returns _ _ _ _ _ Hrun) as (Hlabels & _ & Hpos & _).
    split; [done|]. intros c Hc. by apply count_label_pos_inv, Hpos.
  - intros [Hlabels Hinh].
    destruct (train_total documents classes Hlabels Hinh Hnn)
      as (lp & ll & Hrun). eauto.
Qed.

Lemma train_returns_iff_scenario :
  ∃ m, train_naive_bayes scenario_docs ["pos"; "neg"] = Ok m.
Proof.
  apply (train_returns_iff scenario_docs ["pos"; "neg"] scenario_nonneg).
  split; [exact scenario_labels | exact scenario_inhabited].
Defined.

(** X4.  On an empty list of documents, training raises
    [ZeroDivisionError] at the first prior, unless the class set is empty
    too, in which case it returns the empty model. *)
Theorem train_without_documents (classes : list string) :
  train_naive_bayes [] classes
  = match classes with
    | [] => Ok (∅, ∅, ∅)
    | _ :: _ => Raise ZeroDivisionError
    end.
Proof.
  destruct classes as [|c classes]; [done|].
  unfold train_naive_bayes.
  destruct (count_classes_ok [] (c :: classes)) as (cc & -> & Hcc).
  { intros d Hd. by apply elem_of_nil in Hd. }
  rewrite bind_Ok. unfold class_priors. cbn [for_each].
  assert (prior_step cc (Z.of_nat (length ([] : list document))) ∅ c
          = Raise ZeroDivisionError) as ->; [|done].
  unfold prior_step, Py.getitem. rewrite Hcc, decide_True by left. done.
Qed.

(** X5.  When the labels are those of the class set but some class labels
    no document of a non-empty training set, training raises
    [ValueError]: the prior of that class is [log (0 / N)]. *)
Theorem train_with_empty_class (documents : list document)
    (classes : list string) (c : string) :
  labels_in documents classes → documents ≠ [] → c ∈ classes →
  count_label documents c = 0 →
  train_naive_bayes documents classes = Raise ValueError.
Proof.
  intros Hlabels Hne Hc Hzero. unfold train_naive_bayes.
  destruct (count_classes_ok documents classes Hlabels) as (cc & -> & Hcc).
  rewrite bind_Ok.
  rewrite (class_priors_empty_class cc _ classes (count_label documents) c);
    try done.
  - intros c' Hc'. by rewrite Hcc, decide_True.
  - destruct documents; [done | simpl; lia].
Qed.

Lemma train_with_empty_class_wordless :
  train_naive_bayes wordless_docs ["pos"; "neg"] = Raise ValueError.
Proof.
  apply (train_with_empty_class wordless_docs ["pos"; "neg"] "neg").
  - apply labels_in_Forall. by_evaluation.
  - discriminate.
  - by_evaluation.
  - reflexivity.
Defined.

(** X6.  The order of the training documents and the iteration order of
    the class set do not matter: a model returned for one order is
    returned for every other. *)
Theorem train_order_irrelevant (documents documents' : list document)
    (classes classes' : list string) (m : model) :
  documents ≡ₚ documents' → classes ≡ₚ classes' →
  train_naive_bayes documents classes = Ok m →
  train_naive_bayes documents' classes' = Ok m.
Proof.
  intros Hdocs Hclasses Hrun. destruct m as [[V lp] ll].
  pose proof (train_returns_spec _ _ _ _ _ Hrun)
    as (Hlabels & HV & Hpos & Hest & Hlp & Hll).
  assert (vocabulary_of documents' = V) as HV'
    by (by rewrite HV; symmetry; apply vocabulary_of_perm).
  destruct (train_total_spec documents' classes') as (lp' & ll' & Hrun').
  - intros d Hd. rewrite <- Hclasses. apply Hlabels. by rewrite Hdocs.
  - intros c Hc. rewrite <- (count_label_perm _ _ c Hdocs).
    apply Hpos. by rewrite Hclasses.
  - intros c w Hc Hw. rewrite HV' in *.
    rewrite <- (total_in_class_perm _ _ c Hdocs),
      <- (word_count_in_class_perm _ _ c w Hdocs).
    apply Hest; [by rewrite Hclasses | done].
  - rewrite Hrun'. rewrite HV'. do 2 f_equal; [f_equal|].
    + pose proof (train_returns_spec _ _ _ _ _ Hrun')
        as (_ & _ & _ & _ & Hlp' & _).
      apply map_eq. intros c. rewrite Hlp, Hlp'.
      rewrite <- (count_label_perm _ _ c Hdocs),
        <- (Permutation_length Hdocs).
      destruct (decide (c ∈ classes)) as [Hc|Hc].
      * rewrite decide_True; [done | by rewrite <- Hclasses].
      * rewrite decide_False; [done | by rewrite <- Hclasses].
    + pose proof (train_returns_spec _ _ _ _ _ Hrun')
        as (_ & _ & _ & _ & _ & Hll').
      apply map_eq. intros [w c]. rewrite Hll, Hll', HV'.
      rewrite <- (total_in_class_perm _ _ c Hdocs),
        <- (word_count_in_class_perm _ _ c w Hdocs).
      destruct (decide (c ∈ classes ∧ w ∈ V)) as [[Hc Hw]|Hnot].
      * rewrite decide_True; [done|]. split; [by rewrite <- Hclasses | done].
      * rewrite decide_False; [done|]. intros [Hc Hw]. apply Hnot.
        split; [by rewrite Hclasses | done].
Qed.

Lemma train_order_irrelevant_scenario :
  train_naive_bayes (reverse scenario_docs) ["neg"; "pos"]
  = Ok (scenario_V, scenario_logprior, scenario_loglikelihood).
Proof.
  apply (train_order_irrelevant scenario_docs (reverse scenario_docs)
           ["pos"; "neg"] ["neg"; "pos"]).
  - apply Permutation_swap.
  - apply Permutation_swap.
  - vm_compute. reflexivity.
Defined.

(** X7.  A returned model has a prior exactly for the classes of the
    class set and a likelihood exactly for the pairs of a vocabulary word
    and a class: nothing is missing and nothing else is stored. *)
Theorem model_domains (documents : list document) (classes : list string)
    (V : gset string) (logprior : gmap string R)
    (loglikelihood : gmap (string * string) R) :
  train_naive_bayes documents classes = Ok (V, logprior, loglikelihood) →
  dom logprior = list_to_set classes
  ∧ ∀ w c, is_Some (loglikelihood !! (w, c)) ↔ w ∈ V ∧ c ∈ classes.
Proof.
  intros Hrun.
  pose proof (train_returns_spec _ _ _ _ _ Hrun)
    as (_ & _ & _ & _ & Hlp & Hll).
  split.
  - apply set_eq. intros c. rewrite elem_of_dom, Hlp, elem_of_list_to_set.
    case_decide; [by split; [|eexists] | by split; [intros [? ?]|]].
  - intros w c. rewrite Hll. case_decide as H.
    + split; [tauto | by eexists].
    + split; [by intros [? ?] | tauto].
Qed.

Lemma model_domains_scenario :
  dom scenario_logprior = list_to_set ["pos"; "neg"]
  ∧ ∀ w c, is_Some (scenario_loglikelihood !! (w, c))
           ↔ w ∈ scenario_V ∧ c ∈ ["pos"; "neg"].
Proof.
  apply (model_domains scenario_docs). vm_compute. reflexivity.
Defined.

(** X8.  With non-negative counts, smoothing is monotone within a class:
    of two vocabulary words, the one that occurs more often in the
    documents of the class has the strictly higher log likelihood, and
    words that occur equally often have equal log likelihoods. *)
Theorem likelihood_monotone (documents : list document)
    (classes : list string) (V : gset string) (logprior : gmap string R)
    (loglikelihood : gmap (string * string) R) (c w1 w2 : string) :
  nonneg_counts documents →
  train_naive_bayes documents classes = Ok (V, logprior, loglikelihood) →
  c ∈ classes → w1 ∈ V → w2 ∈ V →
  ∃ x1 x2,
    loglikelihood !! (w1, c) = Some x1
    ∧ loglikelihood !! (w2, c) = Some x2
    ∧ (word_count_in_class documents c w1
       < word_count_in_class documents c w2 → (x1 < x2)%R)
    ∧ (word_count_in_class documents c w1
       = word_count_in_class documents c w2 → x1 = x2).
Proof.
  intros Hnn Hrun Hc Hw1 Hw2.
  pose proof (train_returns_spec _ _ _ _ _ Hrun)
    as (_ & _ & _ & Hest & _ & Hll).
  destruct (Hest c w1 Hc Hw1) as [HT _].
  pose proof (word_count_in_class_nonneg documents c w1 Hnn).
  pose proof (total_in_class_nonneg documents c Hnn).
  pose proof (size_pos_of_elem _ _ Hw1).
  eexists _, _. split_and!.
  - by rewrite Hll, decide_True.
  - by rewrite Hll, decide_True.
  - intros Hlt. rewrite !Q2R_ratio by done. apply ln_increasing.
    + apply Rdiv_lt_0_compat; apply IZR_lt; lia.
    + apply Rmult_lt_compat_r; [|apply IZR_lt; lia].
      apply Rinv_0_lt_compat, IZR_lt. lia.
  - by intros ->.
Qed.

Lemma likelihood_monotone_scenario :
  ∃ x1 x2,
    scenario_loglikelihood !! ("bad", "pos") = Some x1
    ∧ scenario_loglikelihood !! ("great", "pos") = Some x2
    ∧ (x1 < x2)%R.
Proof.
  assert (train_naive_bayes scenario_docs ["pos"; "neg"]
          = Ok (scenario_V, scenario_logprior, scenario_loglikelihood))
    as Hrun by (vm_compute; reflexivity).
  assert ("pos" ∈ ["pos"; "neg"]) as Hc by by_evaluation.
  assert ("bad" ∈ scenario_V) as Hw1 by by_evaluation.
  assert ("great" ∈ scenario_V) as Hw2 by by_evaluation.
  destruct (likelihood_monotone scenario_docs ["pos"; "neg"] scenario_V
              scenario_logprior scenario_loglikelihood "pos" "bad" "great"
              scenario_nonneg Hrun Hc Hw1 Hw2)
    as (x1 & x2 & H1 & H2 & Hlt & _).
  exists x1, x2. split_and!; [exact H1 | exact H2 |].
  apply Hlt. vm_compute. reflexivity.
Defined.

(** X9.  Every log prior of a returned model is at most 0, and with
    non-negative counts so is every log likelihood: a known word never
    raises the score of a class. *)
Theorem model_logs_nonpositive (documents : list document)
    (classes : list string) (V : gset string) (logprior : gmap string R)
    (loglikelihood : gmap (string * string) R) :
  train_naive_bayes documents classes = Ok (V, logprior, loglikelihood) →
  (∀ c p, logprior !! c = Some p → (p <= 0)%R)
  ∧ (nonneg_counts documents →
     ∀ w c x, loglikelihood !! (w, c) = Some x → (x <= 0)%R).
Proof.
  intros Hrun.
  pose proof (train_returns_spec _ _ _ _ _ Hrun)
    as (_ & HV & Hpos & Hest & Hlp & Hll).
  split.
  - intros c p. rewrite Hlp. case_decide as Hc; [|done]. intros [= <-].
    pose proof (Hpos c Hc). pose proof (count_label_le_length documents c).
    apply ln_nonpos.
    + apply Rdiv_lt_0_compat; apply IZR_lt; lia.
    + apply Rdiv_le_one; [apply IZR_lt; lia | apply IZR_le; lia].
  - intros Hnn w c x. rewrite Hll. case_decide as Hcw; [|done].
    destruct Hcw as [Hc Hw]. intros [= <-].
    pose proof (word_count_in_class_nonneg documents c w Hnn).
    pose proof (word_count_le_total documents c w Hnn).
    pose proof (size_pos_of_elem _ _ Hw).
    rewrite Q2R_ratio by lia. apply ln_nonpos.
    + apply Rdiv_lt_0_compat; apply IZR_lt; lia.
    + apply Rdiv_le_one; [apply IZR_lt; lia | apply IZR_le; lia].
Qed.

Lemma model_logs_nonpositive_scenario :
  ∀ c p, scenario_logprior !! c = Some p → (p <= 0)%R.
Proof.
  apply (model_logs_nonpositive scenario_docs ["pos"; "neg"] scenario_V
           scenario_logprior scenario_loglikelihood).
  vm_compute. reflexivity.
Defined.

(** X10.  For a non-empty class set on which the priors are defined, the
    score of each class is its log prior plus, for every word of the
    document that belongs to [V], the count of the word times its log
    likelihood for the class; the classifier returns the first class, in
    iteration order, whose score no class exceeds. *)
Theorem classifier_argmax (word_counts : gmap string Z) (V : gset string)
    (logprior : gmap string R) (loglikelihood : gmap (string * string) R)
    (classes : list string) :
  NoDup classes → classes ≠ [] →
  (∀ c, c ∈ classes → is_Some (logprior !! c)) →
  let score_of := score word_counts V logprior loglikelihood in
  class_scores word_counts V logprior loglikelihood classes
  = Ok (map (λ c, (c, score_of c)) classes)
  ∧ ∃ r i,
      test_naive_bayes word_counts V logprior loglikelihood classes = Ok r
      ∧ classes !! i = Some r
      ∧ (∀ c, c ∈ classes → (score_of c <= score_of r)%R)
      ∧ (∀ j c, (j < i)%nat → classes !! j = Some c →
           (score_of c < score_of r)%R).
Proof.
  intros Hnd Hne Hlp score_of.
  pose proof (class_scores_spec word_counts V logprior loglikelihood classes
                Hnd Hlp) as Hscores.
  split; [done|]. unfold test_naive_bayes. rewrite Hscores, bind_Ok.
  destruct (max_by_value_index
              (map (λ c, (c, score word_counts V logprior loglikelihood c))
                 classes))
    as ([r s] & i & -> & Hi & Hmax & Hfirst).
  { by destruct classes. }
  rewrite bind_Ok. simpl. exists r, i.
  rewrite list_lookup_fmap in Hi.
  destruct (classes !! i) as [r'|] eqn:Hr; [|done].
  injection Hi as -> <-. split_and!; [done..| |].
  - intros c Hc. apply list_elem_of_lookup_1 in Hc as [j Hj].
    apply (Hmax j (c, score_of c)). by rewrite list_lookup_fmap, Hj.
  - intros j c Hlt Hj. apply (Hfirst j (c, score_of c) Hlt).
    by rewrite list_lookup_fmap, Hj.
Qed.

(** In the scenario the document {great: 1, bad: 1} is a tie, and goes
    to the class met first. *)
Lemma classifier_argmax_scenario :
  ∃ r i,
    test_naive_bayes {["great" := 1; "bad" := 1]} scenario_V
      scenario_logprior scenario_loglikelihood ["neg"; "pos"] = Ok r
    ∧ ["neg"; "pos"] !! i = Some r.
Proof.
  assert (NoDup ["neg"; "pos"]) as Hnd by by_evaluation.
  assert (["neg"; "pos"] ≠ []) as Hne by discriminate.
  assert (∀ c, c ∈ ["neg"; "pos"] → is_Some (scenario_logprior !! c)) as Hlp.
  { intros c Hc. apply elem_of_cons in Hc as [->|Hc]; [by eexists|].
    apply list_elem_of_singleton in Hc as ->. by eexists. }
  destruct (classifier_argmax {["great" := 1; "bad" := 1]} scenario_V
              scenario_logprior scenario_loglikelihood ["neg"; "pos"]
              Hnd Hne Hlp) as (_ & r & i & Hrun & Hi & _).
  exists r, i. split; [exact Hrun | exact Hi].
Defined.

(** X11.  For a class set without duplicates, the classifier returns a
    class exactly when the class set is not empty and every class has a
    prior; the class it returns belongs to the class set. *)
Theorem classifier_returns_iff (word_counts : gmap string Z) (V : gset string)
    (logprior : gmap string R) (loglikelihood : gmap (string * string) R)
    (classes : list string) :
  NoDup classes →
  ((∃ r, test_naive_bayes word_counts V logprior loglikelihood classes = Ok r)
   ↔ classes ≠ [] ∧ ∀ c, c ∈ classes → is_Some (logprior !! c))
  ∧ ∀ r, test_naive_bayes word_counts V logprior loglikelihood classes = Ok r →
         r ∈ classes.
Proof.
  intros Hnd.
  assert (∀ r,
            test_naive_bayes word_counts V logprior loglikelihood classes
            = Ok r →
            r ∈ classes ∧ classes ≠ []
            ∧ ∀ c, c ∈ classes → is_Some (logprior !! c)) as Hinv.
  { intros r Hrun. unfold test_naive_bayes in Hrun. bind_inv Hrun.
    injection Hrun as <-. rename a into scores, a0 into best.
    pose proof (class_scores_keys _ _ _ _ _ _ Hnd Hstep) as Hkeys.
    assert (best ∈ scores) as Hbest.
    { destruct scores as [|x scores]; [done|].
      destruct (max_by_value_index (x :: scores)) as (b & i & Hb & Hi & _);
        [done|].
      assert (b = best) as -> by congruence.
      by eapply list_elem_of_lookup_2. }
    assert (best.1 ∈ classes) as Hin.
    { rewrite <- Hkeys. apply list_elem_of_fmap. by exists best. }
    split_and!; [done | by intros -> ; apply elem_of_nil in Hin |].
    unfold class_scores in Hstep. bind_inv Hstep.
    by eapply initial_scores_inv. }
  split.
  - split.
    + intros [r Hrun]. by apply Hinv in Hrun as (_ & ? & ?).
    + intros [Hne Hlp].
      destruct (classifier_argmax word_counts V logprior loglikelihood
                  classes Hnd Hne Hlp) as (_ & r & _ & Hrun & _). eauto.
  - intros r Hrun. by apply Hinv in Hrun as (? & _).
Qed.

Lemma classifier_returns_iff_scenario :
  ∃ r, test_naive_bayes ∅ scenario_V scenario_logprior
         scenario_loglikelihood ["pos"; "neg"] = Ok r.
Proof.
  assert (NoDup ["pos"; "neg"]) as Hnd by by_evaluation.
  apply (classifier_returns_iff ∅ scenario_V scenario_logprior
           scenario_loglikelihood ["pos"; "neg"] Hnd).
  split; [discriminate|].
  intros c Hc. apply elem_of_cons in Hc as [->|Hc]; [by eexists|].
  apply list_elem_of_singleton in Hc as ->. by eexists.
Defined.

(** X12.  The classifier raises [ValueError] on an empty class set, and
    [KeyError] for the first class, in iteration order, that has no
    prior. *)
Theorem classifier_errors (word_counts : gmap string Z) (V : gset string)
    (logprior : gmap string R) (loglikelihood : gmap (string * string) R) :
  test_naive_bayes word_counts V logprior loglikelihood [] = Raise ValueError
  ∧ ∀ pre c post,
      (∀ c', c' ∈ pre → is_Some (logprior !! c')) → logprior !! c = None →
      test_naive_bayes word_counts V logprior loglikelihood (pre ++ c :: post)
      = Raise (KeyError c).
Proof.
  split.
  - unfold test_naive_bayes, class_scores. simpl.
    unfold accumulate_scores. rewrite for_each_skip; [done|].
    intros [w n] _. by case_decide.
  - intros pre c post Hpre Hc. unfold test_naive_bayes, class_scores.
    by rewrite initial_scores_missing.
Qed.

(** X13.  Only the words of the vocabulary matter: for a class set
    without duplicates, classifying a document gives the same result, or
    the same error, as classifying the document restricted to the words
    of [V]. *)
Theorem classifier_ignores_unknown_words (word_counts : gmap string Z)
    (V : gset string) (logprior : gmap string R)
    (loglikelihood : gmap (string * string) R) (classes : list string) :
  NoDup classes →
  test_naive_bayes (filter (λ item, item.1 ∈ V) word_counts) V logprior
    loglikelihood classes
  = test_naive_bayes word_counts V logprior loglikelihood classes.
Proof.
  intros Hnd. unfold test_naive_bayes. f_equal.
  destruct (priors_defined_dec logprior classes)
    as [Hlp|(pre & c & post & -> & Hpre & Hc)].
  - rewrite !class_scores_spec by done. f_equal. apply map_ext.
    intros c. f_equal. apply score_filter.
  - unfold class_scores. by rewrite initial_scores_missing.
Qed.

Lemma classifier_ignores_unknown_words_scenario :
  test_naive_bayes {["great" := 1; "unseen" := 3]} scenario_V
    scenario_logprior scenario_loglikelihood ["neg"; "pos"] = Ok "pos".
Proof.
  assert (NoDup ["neg"; "pos"]) as Hnd by by_evaluation.
  rewrite <- (classifier_ignores_unknown_words _ _ _ _ _ Hnd).
  assert (filter (λ item : string * Z, item.1 ∈ scenario_V)
            ({["great" := 1; "unseen" := 3]} : gmap string Z)
          = {["great" := 1]}) as -> by (vm_compute; reflexivity).
  apply scenario_classified. apply Permutation_swap.
Defined.

(** X14.  When the test corpus has no document (no line, or only lines
    without tokens), the driver raises [ZeroDivisionError] at the accuracy
    and completes no predictions file. *)
Theorem main_without_test_documents (train_lines test_lines : list string)
    (classes : list string) (train_docs : list document)
    (vocabulary : gset string) (m : model) :
  load_preprocessed_data train_lines = Ok (train_docs, vocabulary) →
  train_naive_bayes train_docs classes = Ok m →
  Forall (λ line, Py.split (Py.strip line) = []) test_lines →
  main train_lines test_lines classes = Raise ZeroDivisionError.
Proof.
  intros Hload Htrain Hblank. destruct m as [[V lp] ll]. unfold main.
  rewrite Hload, bind_Ok. rewrite Htrain, bind_Ok.
  by rewrite (load_blank_lines _ Hblank), bind_Ok.
Qed.

Lemma main_without_test_documents_scenario :
  main scenario_lines [""; "  "] ["pos"; "neg"] = Raise ZeroDivisionError.
Proof.
  apply (main_without_test_documents scenario_lines [""; "  "] ["pos"; "neg"]
           scenario_docs scenario_V
           (scenario_V, scenario_logprior, scenario_loglikelihood)).
  - vm_compute. reflexivity.
  - vm_compute. reflexivity.
  - by_evaluation.
Defined.

(** X15.  For a non-empty test corpus whose documents are all
    classified, the summary reads [Accuracy: 100.00%] when every
    prediction is the label of its document and [Accuracy: 0.00%] when
    none is. *)
Theorem accuracy_extremes (test_docs : list document) (V : gset string)
    (logprior : gmap string R) (loglikelihood : gmap (string * string) R)
    (classes : list string) (predictions : list string) :
  test_docs ≠ [] →
  Forall2
    (λ (d : document) p,
       test_naive_bayes d.1 V logprior loglikelihood classes = Ok p)
    test_docs predictions →
  (predictions = test_docs.*2 →
   write_predictions test_docs V logprior loglikelihood classes
   = Ok (predictions_text predictions
         +:+ nl +:+ "Accuracy: " +:+ "100.00" +:+ "%"))
  ∧ (Forall2 (λ p (d : document), p ≠ d.2) predictions test_docs →
     write_predictions test_docs V logprior loglikelihood classes
     = Ok (predictions_text predictions
           +:+ nl +:+ "Accuracy: " +:+ "0.00" +:+ "%")).
Proof.
  intros Hne Hpreds.
  pose proof (Forall2_length _ _ _ Hpreds) as Hlen. symmetry in Hlen.
  rewrite (write_predictions_ok _ _ _ _ _ _ Hne Hpreds).
  assert (∃ p, Z.of_nat (length test_docs) = Z.pos p) as [p Hp].
  { destruct test_docs; [done|]. simpl length.
    exists (Pos.of_succ_nat (length test_docs)). lia. }
  split.
  - intros Hall. apply (count_correct_all _ _ Hlen) in Hall.
    by rewrite Hall, Hp, format_2f_all.
  - intros Hnone. apply (count_correct_none _ _ Hlen) in Hnone.
    by rewrite Hnone, Hp, format_2f_none.
Qed.

Lemma accuracy_extremes_scenario :
  write_predictions [({["great" := 1]}, "pos")] scenario_V scenario_logprior
    scenario_loglikelihood ["pos"; "neg"]
  = Ok (predictions_text ["pos"] +:+ nl +:+ "Accuracy: " +:+ "100.00" +:+ "%").
Proof.
  assert (Forall2
            (λ (d : document) p,
               test_naive_bayes d.1 scenario_V scenario_logprior
                 scenario_loglikelihood ["pos"; "neg"] = Ok p)
            [({["great" := 1]}, "pos")] ["pos"]) as Hpreds.
  { repeat constructor. apply (scenario_classified ["pos"; "neg"]).
    reflexivity. }
  apply (accuracy_extremes [({["great" := 1]}, "pos")] scenario_V
           scenario_logprior scenario_loglikelihood ["pos"; "neg"] ["pos"]);
    [discriminate | exact Hpreds | reflexivity].
Defined.
